(** * debughttp: the redaction engine and the logging round tripper

    A shallow embedding of [debughttp.go] (package [debughttp]).

    - Go [int] values are modelled as [Z]; every integer the code computes
      stays between [-1] and the length of the buffer, so no wrap-around
      occurs and none is modelled.
    - A [[]byte] is a [list byte].  Index expressions [buf[i]], assignments
      [buf[i] = c] and slice expressions [buf[:n]], [buf[i:]] are checked:
      each returns [None] where Go would panic with an index or slice bound
      out of range (bounds are taken against [len], which is at most [cap]).
    - [cleanAuth] overwrites its argument in place and returns a shorter
      slice of the same array; the model returns the contents of the
      returned slice.
    - The collaborators of [RoundTrip] ([httputil.DumpRequestOut],
      [httputil.DumpResponse], the wrapped [http.Transport] and the
      configured [Logf]) are parameters; every call made to them is
      recorded, in order, in a trace. *)

From Stdlib Require Import String Strings.Byte.
From Stdlib Require Import ZArith List Bool Lia.
Import ListNotations.

Local Open Scope Z_scope.

(** ** Bytes and checked slice operations *)

Module Bytes.

Definition bytes := list byte.

(** [[]byte("...")] *)
Definition of_string (s : string) : bytes := list_byte_of_string s.

(** ['\n'], ['\r'] and ['X'] *)
Definition LF : byte := x0a.
Definition CR : byte := x0d.
Definition MASK : byte := x58.

(** [len(buf)] *)
Definition len (buf : bytes) : Z := Z.of_nat (length buf).

(** [buf[:hi]] *)
Definition slice_to (buf : bytes) (hi : Z) : option bytes :=
  if (0 <=? hi) && (hi <=? len buf)
  then Some (firstn (Z.to_nat hi) buf) else None.

(** [buf[lo:]] *)
Definition slice_from (buf : bytes) (lo : Z) : option bytes :=
  if (0 <=? lo) && (lo <=? len buf)
  then Some (skipn (Z.to_nat lo) buf) else None.

(** [buf[i]] *)
Definition index_get (buf : bytes) (i : Z) : option byte :=
  if (0 <=? i) && (i <? len buf)
  then nth_error buf (Z.to_nat i) else None.

(** [buf[i] = c] *)
Definition index_set (buf : bytes) (i : Z) (c : byte) : option bytes :=
  if (0 <=? i) && (i <? len buf)
  then Some (firstn (Z.to_nat i) buf ++ c :: skipn (S (Z.to_nat i)) buf)
  else None.

(** [bytes.HasPrefix(s, sep)] *)
Fixpoint has_prefix (s sep : bytes) : bool :=
  match sep, s with
  | [], _ => true
  | _ :: _, [] => false
  | x :: sep', y :: s' => Byte.eqb x y && has_prefix s' sep'
  end.

(** [bytes.Index(s, sep)]: the index of the first instance of [sep] in
    [s], or [-1] if [sep] is not present in [s]. *)
Fixpoint Index (s sep : bytes) : Z :=
  if has_prefix s sep then 0
  else match s with
       | [] => -1
       | _ :: s' => let r := Index s' sep in
                    if r <? 0 then -1 else r + 1
       end.

(** [bytes.IndexByte(s, c)]: the index of the first instance of [c] in
    [s], or [-1] if [c] is not present in [s]. *)
Fixpoint IndexByte (s : bytes) (c : byte) : Z :=
  match s with
  | [] => -1
  | y :: s' => if Byte.eqb y c then 0
               else let r := IndexByte s' c in
                    if r <? 0 then -1 else r + 1
  end.

(** [n = copy(buf[i:], buf[k:])] for [i <= k]: the builtin copies
    [min(len(dst), len(src))] bytes with the semantics of a move, so
    overlapping source and destination are fine.  Returns the buffer
    after the copy and the number of bytes copied. *)
Definition copy_within (buf : bytes) (i k : Z) : option (bytes * Z) :=
  match slice_from buf i, slice_from buf k with
  | Some dst, Some src =>
      let n := Z.min (len dst) (len src) in
      Some (firstn (Z.to_nat i) buf
              ++ firstn (Z.to_nat n) src ++ skipn (Z.to_nat n) dst, n)
  | _, _ => None
  end.

End Bytes.

Import Bytes.

(** ** The redaction engine *)

(** Bind of the panic monad: [None] is a run-time panic. *)
Declare Scope panic_scope.
Delimit Scope panic_scope with panic.
Notation "x <- a ;; b" :=
  (match a with Some x => b | None => None end)
  (at level 61, a at next level, right associativity) : panic_scope.
Notation "' ( x , y ) <- a ;; b" :=
  (match a with Some (x, y) => b | None => None end)
  (at level 61, x name, y name, a at next level, right associativity)
  : panic_scope.
Local Open Scope panic_scope.

(** The masking loop of [cleanAuth]:

      for j := 0; i < len(buf) && j < 4; j++ {
          if buf[i] == '\n' { break }
          buf[i] = 'X'
          i++
      }

    [k] counts the iterations still allowed, [k = 4 - j].  The result is
    the buffer and the value of [i] when the loop is left. *)
Fixpoint mask_loop (k : nat) (buf : bytes) (i : Z) : option (bytes * Z) :=
  match k with
  | O => Some (buf, i)
  | S k' =>
      if i <? len buf then
        c <- index_get buf i ;;
        if Byte.eqb c LF then Some (buf, i)
        else
          buf' <- index_set buf i MASK ;;
          mask_loop k' buf' (i + 1)
      else Some (buf, i)
  end.

(** [cleanAuth] gets rid of one [authBuf] header within the first 4k. *)
Definition cleanAuth (buf authBuf : bytes) : option bytes :=
  let n := 4096 in
  let n := if len buf <? n then len buf else n in
  window <- slice_to buf n ;;
  let i := Index window authBuf in
  if i <? 0 then Some buf
  else
    let i := i + len authBuf in
    '(buf, i) <- mask_loop 4 buf i ;;
    tail <- slice_from buf i ;;
    let j := IndexByte tail LF in
    if j <? 0 then slice_to buf i
    else
      '(buf, n) <- copy_within buf i (i + j) ;;
      slice_to buf (i + n).

(** [Auth] is the headers which are redacted if [DumpAuth] is not set. *)
Definition Auth : list bytes :=
  [ of_string "Authorization: "; of_string "X-Auth-Token: " ].

(** The loop of [cleanAuths]:
      for _, authBuf := range t.opt.Auth { buf = cleanAuth(buf, authBuf) } *)
Fixpoint cleanAuths_range (auths : list bytes) (buf : bytes) : option bytes :=
  match auths with
  | [] => Some buf
  | authBuf :: rest =>
      buf <- cleanAuth buf authBuf ;;
      cleanAuths_range rest buf
  end.

Local Close Scope panic_scope.

(** ** The interception layer *)

(** [DumpFlags] describes the dump options in force ([1 << iota]). *)
Module DumpFlags.
Definition DumpHeaders : Z := Z.shiftl 1 0.
Definition DumpBodies : Z := Z.shiftl 1 1.
Definition DumpRequests : Z := Z.shiftl 1 2.
Definition DumpResponses : Z := Z.shiftl 1 3.
Definition DumpAuth : Z := Z.shiftl 1 4.
End DumpFlags.
Import DumpFlags.

(** [flags&mask != 0] *)
Definition flags_and_ne0 (flags mask : Z) : bool :=
  negb (Z.land flags mask =? 0).

(** Default separators for requests and responses. *)
Definition SeparatorReq : bytes :=
  of_string ">>>>>>>>>>>>>>>>>>>>>>>>>>>>>>>>>>>>>>>>>>>>>>>>>>>>>>>>>>>>".
Definition SeparatorResp : bytes :=
  of_string "<<<<<<<<<<<<<<<<<<<<<<<<<<<<<<<<<<<<<<<<<<<<<<<<<<<<<<<<<<<<".

(** The values handed to [Logf] after the format: a Go string, the
    request pointer printed with [%p], or an error printed with [%v]. *)
Inductive Arg (Request Error : Type) : Type :=
| ArgString (s : bytes)
| ArgPointer (req : Request)
| ArgError (err : Error).
Arguments ArgString {Request Error} s.
Arguments ArgPointer {Request Error} req.
Arguments ArgError {Request Error} err.

(** [Options] controls the configuration of the HTTP debugging.  The
    fields are those of a [Transport] built by [New], where [Logf] and
    [Auth] are never nil.  [World] is the state of everything outside the
    package (the network, the body readers, the sink of the log). *)
Module Options.
Record t {Request Error World : Type} : Type := mk {
  Flags : Z;
  Logf : string -> list (Arg Request Error) -> World -> World;
  Auth : list bytes
}.
Arguments t : clear implicits.
Arguments mk {Request Error World} Flags Logf Auth.
End Options.

(** The collaborators of [RoundTrip] outside the package.

    [httputil.DumpRequestOut(req, body)] and
    [httputil.DumpResponse(resp, body)] give [inl buf] when the returned
    error is nil and [inr derr] otherwise.  [http_RoundTrip] is the method
    [RoundTrip(req)] of the wrapped [http.Transport]: it gives the response
    pointer and the error, [None] for a nil error. *)
Class Collaborators (Request Response Error World HttpTransport : Type) := {
  DumpRequestOut : Request -> bool -> World -> (bytes + Error) * World;
  DumpResponse : Response -> bool -> World -> (bytes + Error) * World;
  http_RoundTrip :
    HttpTransport -> Request -> World -> (Response * option Error) * World
}.

Section Interception.

Context {Request Response Error World HttpTransport : Type}.
Context {collaborators :
           Collaborators Request Response Error World HttpTransport}.

(** [Transport] wraps an [http.Transport] and logs requests and
    responses. *)
Record Transport : Type := mkTransport {
  Transport_ : HttpTransport;
  opt : Options.t Request Error World
}.

(** One call made by [RoundTrip] to a collaborator, with what it
    returned. *)
Inductive Call : Type :=
| CallLogf (format : string) (args : list (Arg Request Error))
| CallDumpRequestOut (req : Request) (body : bool) (ret : bytes + Error)
| CallRoundTrip (req : Request) (ret : Response * option Error)
| CallDumpResponse (resp : Response) (body : bool) (ret : bytes + Error).

(** Computations that change the world, record their calls in order and
    may panic. *)
Definition IO (A : Type) : Type := World -> option (A * World * list Call).

Definition ret {A} (a : A) : IO A := fun w => Some (a, w, []).

Definition bind {A B} (m : IO A) (f : A -> IO B) : IO B :=
  fun w =>
    match m w with
    | None => None
    | Some (a, w1, tr1) =>
        match f a w1 with
        | None => None
        | Some (b, w2, tr2) => Some (b, w2, tr1 ++ tr2)
        end
    end.

Definition lift_panic {A} (o : option A) : IO A :=
  fun w => match o with Some a => Some (a, w, []) | None => None end.

Definition call_Logf (t : Transport) (format : string)
    (args : list (Arg Request Error)) : IO unit :=
  fun w => Some (tt, Options.Logf (opt t) format args w,
                 [CallLogf format args]).

Definition call_DumpRequestOut (req : Request) (body : bool)
    : IO (bytes + Error) :=
  fun w => let (r, w') := DumpRequestOut req body w in
           Some (r, w', [CallDumpRequestOut req body r]).

Definition call_DumpResponse (resp : Response) (body : bool)
    : IO (bytes + Error) :=
  fun w => let (r, w') := DumpResponse resp body w in
           Some (r, w', [CallDumpResponse resp body r]).

Definition call_RoundTrip (t : Transport) (req : Request)
    : IO (Response * option Error) :=
  fun w => let (r, w') := http_RoundTrip (Transport_ t) req w in
           Some (r, w', [CallRoundTrip req r]).

(** [cleanAuths] gets rid of all the possible Auth headers. *)
Definition cleanAuths (t : Transport) (buf : bytes) : option bytes :=
  cleanAuths_range (Options.Auth (opt t)) buf.

Declare Scope io_scope.
Delimit Scope io_scope with io.
Notation "x <- a ;; b" := (bind a (fun x => b))
  (at level 61, a at next level, right associativity) : io_scope.
Notation "a ;; b" := (bind a (fun _ => b))
  (at level 61, right associativity) : io_scope.
Local Open Scope io_scope.

(** [RoundTrip] implements the [RoundTripper] interface. *)
Definition RoundTrip (t : Transport) (req : Request)
    : IO (Response * option Error) :=
  let flags := Options.Flags (opt t) in
  (* Logf request *)
  (if flags_and_ne0 flags
        (Z.lor (Z.lor (Z.lor (Z.lor DumpHeaders DumpBodies) DumpAuth)
                  DumpRequests) DumpResponses)
   then
     call_Logf t "%s" [ArgString SeparatorReq] ;;
     call_Logf t "%s (req %p)"
       [ArgString (of_string "HTTP REQUEST"); ArgPointer req] ;;
     r <- call_DumpRequestOut req
            (flags_and_ne0 flags (Z.lor DumpBodies DumpRequests)) ;;
     match r with
     | inr derr => call_Logf t "Dump request failed: %v" [ArgError derr]
     | inl buf =>
         buf <- (if Z.land flags DumpAuth =? 0
                 then lift_panic (cleanAuths t buf) else ret buf) ;;
         call_Logf t "%s" [ArgString buf]
     end ;;
     call_Logf t "%s" [ArgString SeparatorReq]
   else ret tt) ;;
  (* Do round trip *)
  r <- call_RoundTrip t req ;;
  let resp := fst r in
  let err := snd r in
  (* Logf response *)
  (if flags_and_ne0 flags
        (Z.lor (Z.lor (Z.lor (Z.lor DumpHeaders DumpBodies) DumpAuth)
                  DumpRequests) DumpResponses)
   then
     call_Logf t "%s" [ArgString SeparatorResp] ;;
     call_Logf t "%s (req %p)"
       [ArgString (of_string "HTTP RESPONSE"); ArgPointer req] ;;
     match err with
     | Some e => call_Logf t "HTTP request failed: %v" [ArgError e]
     | None =>
         r <- call_DumpResponse resp
                (flags_and_ne0 flags (Z.lor DumpBodies DumpResponses)) ;;
         match r with
         | inr derr => call_Logf t "Dump response failed: %v" [ArgError derr]
         | inl buf => call_Logf t "%s" [ArgString buf]
         end
     end ;;
     call_Logf t "%s" [ArgString SeparatorResp]
   else ret tt) ;;
  ret (resp, err).

(** The first [if] block of [RoundTrip] (the request is logged), under a
    name of its own for the lemmas. *)
Definition log_request (t : Transport) (req : Request) : IO unit :=
  let flags := Options.Flags (opt t) in
  if flags_and_ne0 flags
       (Z.lor (Z.lor (Z.lor (Z.lor DumpHeaders DumpBodies) DumpAuth)
                 DumpRequests) DumpResponses)
  then
    call_Logf t "%s" [ArgString SeparatorReq] ;;
    call_Logf t "%s (req %p)"
      [ArgString (of_string "HTTP REQUEST"); ArgPointer req] ;;
    r <- call_DumpRequestOut req
           (flags_and_ne0 flags (Z.lor DumpBodies DumpRequests)) ;;
    match r with
    | inr derr => call_Logf t "Dump request failed: %v" [ArgError derr]
    | inl buf =>
        buf <- (if Z.land flags DumpAuth =? 0
                then lift_panic (cleanAuths t buf) else ret buf) ;;
        call_Logf t "%s" [ArgString buf]
    end ;;
    call_Logf t "%s" [ArgString SeparatorReq]
  else ret tt.

(** The second [if] block of [RoundTrip] (the response is logged), under
    a name of its own for the lemmas. *)
Definition log_response (t : Transport) (req : Request)
    (resp : Response) (err : option Error) : IO unit :=
  let flags := Options.Flags (opt t) in
  if flags_and_ne0 flags
       (Z.lor (Z.lor (Z.lor (Z.lor DumpHeaders DumpBodies) DumpAuth)
                 DumpRequests) DumpResponses)
  then
    call_Logf t "%s" [ArgString SeparatorResp] ;;
    call_Logf t "%s (req %p)"
      [ArgString (of_string "HTTP RESPONSE"); ArgPointer req] ;;
    match err with
    | Some e => call_Logf t "HTTP request failed: %v" [ArgError e]
    | None =>
        r <- call_DumpResponse resp
               (flags_and_ne0 flags (Z.lor DumpBodies DumpResponses)) ;;
        match r with
        | inr derr => call_Logf t "Dump response failed: %v" [ArgError derr]
        | inl buf => call_Logf t "%s" [ArgString buf]
        end
    end ;;
    call_Logf t "%s" [ArgString SeparatorResp]
  else ret tt.

(** [RoundTrip] written with the two blocks. *)
Definition RoundTrip_in_blocks (t : Transport) (req : Request)
    : IO (Response * option Error) :=
  log_request t req ;;
  r <- call_RoundTrip t req ;;
  log_response t req (fst r) (snd r) ;;
  ret (fst r, snd r).

End Interception.

(** ** What a trace stands for *)

Section Replay.

Context {Request Response Error World HttpTransport : Type}.
Context {collaborators :
           Collaborators Request Response Error World HttpTransport}.

(** The calls of a trace made again, in order, from the world [w]: each
    entry is applied to the collaborator it names ([Logf] of the
    transport's options, [DumpRequestOut], the wrapped transport,
    [DumpResponse]) with the arguments it records.  The result is the
    trace of what these applications return, and the world they leave. *)
Fixpoint replay (t : @Transport Request Error World HttpTransport)
    (calls : list (@Call Request Response Error)) (w : World)
    : list (@Call Request Response Error) * World :=
  match calls with
  | [] => ([], w)
  | c :: rest =>
      let (c', w1) :=
        match c with
        | CallLogf format args =>
            (CallLogf format args, Options.Logf (opt t) format args w)
        | CallDumpRequestOut req body _ =>
            let (r, w1) := DumpRequestOut req body w in
            (CallDumpRequestOut req body r, w1)
        | CallRoundTrip req _ =>
            let (r, w1) := http_RoundTrip (Transport_ t) req w in
            (CallRoundTrip req r, w1)
        | CallDumpResponse resp body _ =>
            let (r, w1) := DumpResponse resp body w in
            (CallDumpResponse resp body r, w1)
        end in
      let (rest', w2) := replay t rest w1 in
      (c' :: rest', w2)
  end.

(** A computation whose trace is true to what it did: made again from
    the world the computation started in, the calls of its trace return
    what the trace records and leave the world the computation left. *)
Definition replays (t : @Transport Request Error World HttpTransport)
    {A : Type}
    (m : World -> option (A * World * list (@Call Request Response Error)))
    : Prop :=
  forall w a w' tr, m w = Some (a, w', tr) -> replay t tr w = (tr, w').

End Replay.

(** ** Construction *)

(** [Options] as the caller of [New] writes it: the same struct, in which
    [Logf] and [Auth] are nil ([None]) when they are left out.  A slice
    that is empty but not nil is [Some []]. *)
Module GivenOptions.
Record t {Request Error World : Type} : Type := mk {
  Flags : Z;
  Logf : option (string -> list (Arg Request Error) -> World -> World);
  Auth : option (list bytes)
}.
Arguments t : clear implicits.
Arguments mk {Request Error World} Flags Logf Auth.
End GivenOptions.

Section Construction.

Context {Request Error World HttpTransport : Type}.

(** [log.Printf], the logging function used when none is given. *)
Variable log_Printf : string -> list (Arg Request Error) -> World -> World.

(** Default options if nil is passed in to [New], [NewDefault] or
    [NewClient]. *)
Definition DefaultOptions : GivenOptions.t Request Error World :=
  GivenOptions.mk DumpHeaders (Some log_Printf) (Some Auth).

(** [DumpBodyOptions] is an easy set of options for dumping bodies. *)
Definition DumpBodyOptions : GivenOptions.t Request Error World :=
  GivenOptions.mk DumpBodies (Some log_Printf) (Some Auth).

(** [New] wraps the [http.Transport] passed in and logs all round trips
    according to the [Flags] in [opt]. *)
Definition New (opt : option (GivenOptions.t Request Error World))
    (transport : HttpTransport)
    : @Transport Request Error World HttpTransport :=
  let opt := match opt with
             | None => DefaultOptions
             | Some o => o
             end in
  let Logf := match GivenOptions.Logf opt with
              | None => log_Printf
              | Some f => f
              end in
  let Auth := match GivenOptions.Auth opt with
              | None => Auth
              | Some a => a
              end in
  mkTransport transport (Options.mk (GivenOptions.Flags opt) Logf Auth).

End Construction.

(** The part of package [reflect] that [setDefaults] uses.  A struct
    value is the list of its fields in declaration order; a field has a
    type, a value and is exported or not.  [T] is the type of Go types and
    [V] the type of Go values; [assignable x t] says that a value of type
    [x] is assignable to type [t]. *)
Module Reflect.
Section Reflect.

Variables T V : Type.
Variable assignable : T -> T -> bool.

Record Field : Type := mkField {
  exported : bool;
  ftype : T;
  fvalue : V
}.

Definition Struct : Type := list Field.

(** [t.NumField()] *)
Definition NumField (v : Struct) : nat := length v.

(** [v.Field(i)]; panics if [i] is out of range. *)
Definition Field_at (v : Struct) (i : nat) : option Field := nth_error v i.

(** [f.CanSet()] for a field of the struct a pointer points to: the
    struct is addressable, so the field can be set exactly when it is
    exported. *)
Definition CanSet (f : Field) : bool := exported f.

(** The field after [f.Set(x)]; panics if [f] cannot be set, if [x] was
    obtained from an unexported field, or if the type of [x] is not
    assignable to the type of [f]. *)
Definition Set_value (f x : Field) : option Field :=
  if CanSet f && exported x && assignable (ftype x) (ftype f)
  then Some (mkField (exported f) (ftype f) (fvalue x))
  else None.

(** The struct with its field [i] replaced: [Set] writes through to the
    struct the field belongs to. *)
Fixpoint store (i : nat) (f : Field) (v : Struct) : Struct :=
  match v, i with
  | [], _ => []
  | _ :: v', O => f :: v'
  | g :: v', S i' => g :: store i' f v'
  end.

(** The loop of [setDefaults]:

      for i := 0; i < t.NumField(); i++ {
          aField := va.Field(i)
          if aField.CanSet() {
              bField := vb.Field(i)
              aField.Set(bField)
          }
      }

    [n] counts the iterations left, [n = t.NumField() - i]. *)
Fixpoint setDefaults_loop (n i : nat) (va vb : Struct) : option Struct :=
  match n with
  | O => Some va
  | S n' =>
      match Field_at va i with
      | None => None
      | Some aField =>
          if CanSet aField then
            match Field_at vb i with
            | None => None
            | Some bField =>
                match Set_value aField bField with
                | None => None
                | Some f => setDefaults_loop n' (S i) (store i f va) vb
                end
            end
          else setDefaults_loop n' (S i) va vb
      end
  end.

(** [setDefaults] for [a] from [b]: copy the public members from [b] to
    [a].  [a] and [b] are the structs that two distinct non-nil pointers
    point to; the result is the struct [a] points to afterwards. *)
Definition setDefaults (a b : Struct) : option Struct :=
  setDefaults_loop (NumField a) 0 a b.

End Reflect.

Arguments mkField {T V} exported ftype fvalue.
Arguments exported {T V} f.
Arguments ftype {T V} f.
Arguments fvalue {T V} f.
Arguments NumField {T V} v.
Arguments Field_at {T V} v i.
Arguments CanSet {T V} f.
Arguments Set_value {T V} assignable f x.
Arguments store {T V} i f v.
Arguments setDefaults_loop {T V} assignable n i va vb.
Arguments setDefaults {T V} assignable a b.

End Reflect.

Section Defaults.

Context {Request Error World T V : Type}.
Variable assignable : T -> T -> bool.
Variable log_Printf : string -> list (Arg Request Error) -> World -> World.

(** The zero value of [http.Transport], as [new(http.Transport)] gives
    it. *)
Variable zero_Transport : Reflect.Struct T V.

(** [http.DefaultTransport] after its type assertion: [None] when the dynamic
    type of [http.DefaultTransport] is not a pointer to [http.Transport]
    and the type assertion panics. *)
Variable http_DefaultTransport : option (Reflect.Struct T V).

(** [NewDefault] returns a transport based off [http.DefaultTransport]
    which will log the HTTP transactions as directed in [opt]. *)
Definition NewDefault (opt : option (GivenOptions.t Request Error World))
    : option (@Transport Request Error World (Reflect.Struct T V)) :=
  match http_DefaultTransport with
  | None => None
  | Some d =>
      match Reflect.setDefaults assignable zero_Transport d with
      | None => None
      | Some t => Some (New log_Printf opt t)
      end
  end.

(** [http.Client], of which only the field [Transport] is set. *)
Record Client : Type := mkClient {
  Client_Transport : @Transport Request Error World (Reflect.Struct T V)
}.

(** [NewClient] returns an [http.Client] based off a transport which
    will log the HTTP transactions as directed in [opt]. *)
Definition NewClient (opt : option (GivenOptions.t Request Error World))
    : option Client :=
  match NewDefault opt with
  | None => None
  | Some t => Some (mkClient t)
  end.

End Defaults.

(** ** Vocabulary of the statements *)

(** [sep] occurs in [s] at offset [k]. *)
Definition occurs_at (s sep : bytes) (k : nat) : Prop :=
  exists a b, s = a ++ sep ++ b /\ length a = k.

(** The number of bytes of [tail] before its first line feed, or before
    its end when it has none: the length of a header value that starts
    at [tail]. *)
Fixpoint value_len (tail : bytes) : nat :=
  match tail with
  | [] => O
  | c :: tail' => if Byte.eqb c LF then O else S (value_len tail')
  end.

(** [tail] from its first line feed on (the line feed included), empty
    when it has none. *)
Fixpoint from_LF (tail : bytes) : bytes :=
  match tail with
  | [] => []
  | c :: tail' => if Byte.eqb c LF then tail else from_LF tail'
  end.

(** [redactAll] as the specification words it: [redactOne] applied
    sequentially for each configured prefix, each pass on the output of
    the previous pass, in configuration order. *)
Definition redactAll (buf : bytes) (prefixes : list bytes) : option bytes :=
  fold_left
    (fun acc prefix =>
       match acc with Some b => cleanAuth b prefix | None => None end)
    prefixes (Some buf).

(** The part of the buffer that [cleanAuth] searches: its first
    [min(4096, len(buf))] bytes. *)
Definition search_window (buf : bytes) : bytes :=
  firstn (Z.to_nat (Z.min 4096 (len buf))) buf.

(** Flag [flag] is set in [flags]. *)
Definition flag_set (flags flag : Z) : Prop := Z.land flags flag <> 0.

(** At least one of the five flags is set: logging is enabled. *)
Definition logging_enabled (flags : Z) : Prop :=
  flag_set flags DumpHeaders \/ flag_set flags DumpBodies
  \/ flag_set flags DumpRequests \/ flag_set flags DumpResponses
  \/ flag_set flags DumpAuth.

(** The calls of a trace that went to the logging function, in order. *)
Definition logf_calls {Request Response Error : Type}
    (tr : list (@Call Request Response Error))
    : list (string * list (Arg Request Error)) :=
  flat_map (fun c => match c with
                     | CallLogf format args => [(format, args)]
                     | _ => []
                     end) tr.

(** The number of line feeds of a buffer: the number of lines it ends. *)
Definition line_feeds (buf : bytes) : nat :=
  count_occ Byte.byte_eq_dec buf LF.

(** ** A small instance to run the code on

    Messages are a head and a body; dumping a message gives its head,
    followed by its body when the body is asked for.  The transport
    answers every request with the response or the error it holds, and
    the world is the list of lines the sink has printed. *)
Module Demo.

Record Msg : Type := mkMsg { head : bytes; body : bytes }.

Definition World : Type := list string.

Definition dump (m : Msg) (with_body : bool) (w : World)
    : (bytes + string) * World :=
  (inl (head m ++ if with_body then body m else []), w).

Definition dispatch (answer : Msg * option string) (req : Msg) (w : World)
    : (Msg * option string) * World :=
  (answer, w).

Definition sink (format : string) (args : list (Arg Msg string))
    (w : World) : World :=
  w ++ [format].

Definition transport (flags : Z) (answer : Msg * option string)
    : @Transport Msg string World (Msg * option string) :=
  mkTransport answer (Options.mk flags sink Auth).

#[export] Instance collaborators
    : Collaborators Msg Msg string World (Msg * option string) :=
  {| DumpRequestOut := dump; DumpResponse := dump;
     http_RoundTrip := dispatch |}.

Definition run (flags : Z) (answer : Msg * option string) (req : Msg) :=
  RoundTrip (transport flags answer) req [].

Definition CRLF : bytes := [CR; LF].

Definition request : Msg :=
  mkMsg (of_string "PUT / HTTP/1.1" ++ CRLF
         ++ of_string "Authorization: POTATO" ++ CRLF ++ CRLF)
        (of_string "Request text").

Definition response : Msg :=
  mkMsg (of_string "HTTP/1.1 200 OK" ++ CRLF
         ++ of_string "X-Auth-Token: SECRETTOKEN" ++ CRLF ++ CRLF)
        (of_string "Response body").

End Demo.

(** The same instance with dump routines that fail on a message without
    head. *)
Module Faulty.

Definition dump (m : Demo.Msg) (with_body : bool) (w : Demo.World)
    : (bytes + string) * Demo.World :=
  match Demo.head m with
  | [] => (inr "no head"%string, w)
  | _ :: _ => Demo.dump m with_body w
  end.

Definition collaborators
    : Collaborators Demo.Msg Demo.Msg string Demo.World
        (Demo.Msg * option string) :=
  {| DumpRequestOut := dump; DumpResponse := dump;
     http_RoundTrip := Demo.dispatch |}.

Definition empty : Demo.Msg := Demo.mkMsg [] [].

Definition run (flags : Z) (answer : Demo.Msg * option string)
    (req : Demo.Msg) :=
  RoundTrip (collaborators := collaborators)
    (Demo.transport flags answer) req [].

End Faulty.

(** An instance that keeps a journal: the world is the list of what the
    collaborators were asked to do, in order.  The dump routines fail on
    a message without head. *)
Module Journal.

Inductive Entry : Type :=
| Printed (format : string) (args : list (Arg Demo.Msg string))
| DumpedRequest (req : Demo.Msg) (body : bool)
| Dispatched (req : Demo.Msg)
| DumpedResponse (resp : Demo.Msg) (body : bool).

Definition World : Type := list Entry.

Definition sink (format : string) (args : list (Arg Demo.Msg string))
    (w : World) : World :=
  w ++ [Printed format args].

Definition text (m : Demo.Msg) (with_body : bool) : bytes + string :=
  match Demo.head m with
  | [] => inr "no head"%string
  | _ :: _ => inl (Demo.head m ++ if with_body then Demo.body m else [])
  end.

Definition dump_request (m : Demo.Msg) (with_body : bool) (w : World)
    : (bytes + string) * World :=
  (text m with_body, w ++ [DumpedRequest m with_body]).

Definition dump_response (m : Demo.Msg) (with_body : bool) (w : World)
    : (bytes + string) * World :=
  (text m with_body, w ++ [DumpedResponse m with_body]).

Definition dispatch (answer : Demo.Msg * option string) (req : Demo.Msg)
    (w : World) : (Demo.Msg * option string) * World :=
  (answer, w ++ [Dispatched req]).

Definition collaborators
    : Collaborators Demo.Msg Demo.Msg string World
        (Demo.Msg * option string) :=
  {| DumpRequestOut := dump_request; DumpResponse := dump_response;
     http_RoundTrip := dispatch |}.

Definition transport (flags : Z) (answer : Demo.Msg * option string)
    : @Transport Demo.Msg string World (Demo.Msg * option string) :=
  mkTransport answer (Options.mk flags sink Auth).

Definition run (flags : Z) (answer : Demo.Msg * option string)
    (req : Demo.Msg) :=
  RoundTrip (collaborators := collaborators) (transport flags answer) req [].

Definition empty : Demo.Msg := Demo.mkMsg [] [].

(** The journal of a logged round trip in which both dumps and the
    dispatch succeed: what is printed, dumped and dispatched, in order. *)
Definition success (req resp : Demo.Msg) (reqbody respbody : bool)
    (reqblock respblock : bytes) : World :=
  [ Printed "%s" [ArgString SeparatorReq];
    Printed "%s (req %p)"
      [ArgString (of_string "HTTP REQUEST"); ArgPointer req];
    DumpedRequest req reqbody;
    Printed "%s" [ArgString reqblock];
    Printed "%s" [ArgString SeparatorReq];
    Dispatched req;
    Printed "%s" [ArgString SeparatorResp];
    Printed "%s (req %p)"
      [ArgString (of_string "HTTP RESPONSE"); ArgPointer req];
    DumpedResponse resp respbody;
    Printed "%s" [ArgString respblock];
    Printed "%s" [ArgString SeparatorResp] ].

(** The head of [Demo.request] after [cleanAuths] with the default list:
    the value of [Authorization] and its carriage return are replaced by
    [XXXX]. *)
Definition redacted_request : bytes :=
  of_string "PUT / HTTP/1.1" ++ [CR; LF]
  ++ of_string "Authorization: XXXX" ++ [LF] ++ [CR; LF].

End Journal.

(** ** Lists, slices and searches *)

Lemma len_app (a b : bytes) : len (a ++ b) = len a + len b.
Proof. unfold len. rewrite length_app. lia. Qed.

Lemma len_nonneg (a : bytes) : 0 <= len a.
Proof. unfold len. lia. Qed.

Lemma slice_to_app (a b : bytes) : slice_to (a ++ b) (len a) = Some a.
Proof.
  unfold slice_to.
  pose proof (len_nonneg a). pose proof (len_nonneg b).
  rewrite len_app.
  replace (0 <=? len a) with true by (symmetry; apply Z.leb_le; lia).
  replace (len a <=? len a + len b) with true
    by (symmetry; apply Z.leb_le; lia).
  simpl. unfold len. rewrite Nat2Z.id.
  rewrite firstn_app, firstn_all, Nat.sub_diag. simpl.
  now rewrite app_nil_r.
Qed.

Lemma slice_from_app (a b : bytes) : slice_from (a ++ b) (len a) = Some b.
Proof.
  unfold slice_from.
  pose proof (len_nonneg a). pose proof (len_nonneg b).
  rewrite len_app.
  replace (0 <=? len a) with true by (symmetry; apply Z.leb_le; lia).
  replace (len a <=? len a + len b) with true
    by (symmetry; apply Z.leb_le; lia).
  simpl. unfold len. rewrite Nat2Z.id.
  now rewrite skipn_app, skipn_all, Nat.sub_diag.
Qed.

Lemma slice_to_firstn (buf : bytes) (n : nat) :
  (n <= length buf)%nat -> slice_to buf (Z.of_nat n) = Some (firstn n buf).
Proof.
  intros Hn. unfold slice_to, len.
  replace (0 <=? Z.of_nat n) with true by (symmetry; apply Z.leb_le; lia).
  replace (Z.of_nat n <=? Z.of_nat (length buf)) with true
    by (symmetry; apply Z.leb_le; lia).
  simpl. now rewrite Nat2Z.id.
Qed.

Lemma index_get_app (a : bytes) (c : byte) (b : bytes) :
  index_get (a ++ c :: b) (len a) = Some c.
Proof.
  unfold index_get.
  pose proof (len_nonneg a). pose proof (len_nonneg b).
  rewrite len_app.
  replace (0 <=? len a) with true by (symmetry; apply Z.leb_le; lia).
  replace (len a <? len a + len (c :: b)) with true
    by (symmetry; apply Z.ltb_lt; unfold len; simpl length; lia).
  simpl. unfold len. rewrite Nat2Z.id.
  rewrite nth_error_app2 by lia. now rewrite Nat.sub_diag.
Qed.

Lemma index_set_app (a : bytes) (c x : byte) (b : bytes) :
  index_set (a ++ c :: b) (len a) x = Some (a ++ x :: b).
Proof.
  unfold index_set.
  pose proof (len_nonneg a). pose proof (len_nonneg b).
  rewrite len_app.
  replace (0 <=? len a) with true by (symmetry; apply Z.leb_le; lia).
  replace (len a <? len a + len (c :: b)) with true
    by (symmetry; apply Z.ltb_lt; unfold len; simpl length; lia).
  simpl andb. cbv iota. unfold len. rewrite Nat2Z.id.
  rewrite firstn_app, firstn_all, Nat.sub_diag. simpl firstn.
  rewrite app_nil_r.
  change (S (length a)) with (1 + length a)%nat.
  rewrite <- skipn_skipn, skipn_app, skipn_all, Nat.sub_diag.
  reflexivity.
Qed.

Lemma has_prefix_true (s sep : bytes) :
  has_prefix s sep = true <-> exists b, s = sep ++ b.
Proof.
  revert s. induction sep as [|x sep IH]; intros s.
  - split; [intros _; now exists s | intros _; now destruct s].
  - destruct s as [|y s]; simpl.
    + split; [discriminate | intros [b Hb]; discriminate].
    + rewrite andb_true_iff, IH. split.
      * intros [Hxy [b ->]]. apply Byte.byte_dec_bl in Hxy. subst.
        now exists b.
      * intros [b Hb]. injection Hb as -> ->. split.
        -- now apply Byte.byte_dec_lb.
        -- now exists b.
Qed.

Lemma Index_eq (s sep : bytes) :
  Index s sep =
  if has_prefix s sep then 0
  else match s with
       | [] => -1
       | _ :: s' => let r := Index s' sep in if r <? 0 then -1 else r + 1
       end.
Proof. destruct s; reflexivity. Qed.

(** [bytes.Index] finds the first occurrence, or answers [-1] when there
    is none. *)
Lemma Index_spec (s sep : bytes) :
  (Index s sep = -1 /\ forall a b, s <> a ++ sep ++ b)
  \/ (exists a b, s = a ++ sep ++ b /\ Index s sep = len a
        /\ forall a' b', s = a' ++ sep ++ b' -> (length a <= length a')%nat).
Proof.
  induction s as [|y s IH]; rewrite Index_eq;
    destruct (has_prefix _ sep) eqn:E.
  - right. apply has_prefix_true in E as [b Hb].
    exists [], b. repeat split; [exact Hb | intros; simpl; lia].
  - left. split; [reflexivity|]. intros a b H.
    destruct a; [|discriminate].
    assert (has_prefix [] sep = true) by (apply has_prefix_true; now exists b).
    congruence.
  - right. apply has_prefix_true in E as [b Hb].
    exists [], b. repeat split; [exact Hb | intros; simpl; lia].
  - assert (Hno : forall b, y :: s <> sep ++ b).
    { intros b Hb.
      assert (has_prefix (y :: s) sep = true)
        by (apply has_prefix_true; now exists b).
      congruence. }
    destruct IH as [[Hi Hnone] | (a & b & Hs & Hi & Hmin)]; cbv zeta;
      rewrite Hi.
    + left. split; [reflexivity|]. intros a b H.
      destruct a as [|z a]; [now apply (Hno b)|].
      injection H as _ H. now apply (Hnone a b).
    + right. exists (y :: a), b.
      pose proof (len_nonneg a).
      replace (len a <? 0) with false by (symmetry; apply Z.ltb_ge; lia).
      repeat split.
      * now rewrite Hs.
      * unfold len. simpl length. lia.
      * intros a' b' H'. destruct a' as [|z a']; [now destruct (Hno b')|].
        injection H' as _ H'. apply Hmin in H'. simpl. lia.
Qed.

Lemma IndexByte_spec (s : bytes) :
  (IndexByte s LF = -1 /\ from_LF s = [])
  \/ (0 <= IndexByte s LF < len s
      /\ skipn (Z.to_nat (IndexByte s LF)) s = from_LF s).
Proof.
  induction s as [|y s IH]; simpl.
  - now left.
  - destruct (Byte.eqb y LF).
    + right. split; [unfold len; simpl length; lia | reflexivity].
    + destruct IH as [[Hi Hf] | [Hi Hf]]; rewrite ?Hi.
      * now left.
      * right.
        replace (IndexByte s LF <? 0) with false
          by (symmetry; apply Z.ltb_ge; lia).
        split; [unfold len in *; simpl length; lia|].
        replace (Z.to_nat (IndexByte s LF + 1))
          with (S (Z.to_nat (IndexByte s LF))) by lia.
        exact Hf.
Qed.

Lemma from_LF_length (s : bytes) : (length (from_LF s) <= length s)%nat.
Proof.
  induction s as [|y s IH]; simpl; [lia|].
  destruct (Byte.eqb y LF); simpl; lia.
Qed.

Lemma value_len_length (s : bytes) : (value_len s <= length s)%nat.
Proof.
  induction s as [|y s IH]; simpl; [lia|].
  destruct (Byte.eqb y LF); simpl; lia.
Qed.

(** A value free of line feeds, followed by one. *)
Lemma value_len_app (v rest : bytes) :
  ~ In LF v -> value_len (v ++ LF :: rest) = length v.
Proof.
  induction v as [|c v IH]; intros Hv; simpl.
  - reflexivity.
  - destruct (Byte.eqb c LF) eqn:E.
    + apply Byte.byte_dec_bl in E. subst. exfalso. apply Hv. now left.
    + f_equal. apply IH. intros H. apply Hv. now right.
Qed.

Lemma from_LF_app (v rest : bytes) :
  ~ In LF v -> from_LF (v ++ LF :: rest) = LF :: rest.
Proof.
  induction v as [|c v IH]; intros Hv; simpl.
  - reflexivity.
  - destruct (Byte.eqb c LF) eqn:E.
    + apply Byte.byte_dec_bl in E. subst. exfalso. apply Hv. now left.
    + apply IH. intros H. apply Hv. now right.
Qed.

(** ** The masking loop *)

(** From position [len pre] the loop writes [min k (value_len tail)] mask
    bytes, all of them inside the buffer, and stops there. *)
Lemma mask_loop_spec (k : nat) : forall pre tail : bytes,
  mask_loop k (pre ++ tail) (len pre) =
  Some (pre ++ repeat MASK (Nat.min k (value_len tail))
            ++ skipn (Nat.min k (value_len tail)) tail,
        len pre + Z.of_nat (Nat.min k (value_len tail))).
Proof.
  induction k as [|k IH]; intros pre tail.
  - simpl. now rewrite Z.add_0_r.
  - cbn [mask_loop]. destruct tail as [|c tail].
    + rewrite app_nil_r, Z.ltb_irrefl. simpl.
      now rewrite app_nil_r, Z.add_0_r.
    + replace (len pre <? len (pre ++ c :: tail)) with true
        by (symmetry; apply Z.ltb_lt; rewrite len_app; unfold len;
            simpl length; lia).
      rewrite index_get_app. cbn [value_len].
      destruct (Byte.eqb c LF).
      * simpl. now rewrite Z.add_0_r.
      * rewrite index_set_app.
        replace (pre ++ MASK :: tail) with ((pre ++ [MASK]) ++ tail)
          by (now rewrite <- app_assoc).
        replace (len pre + 1) with (len (pre ++ [MASK]))
          by (rewrite len_app; reflexivity).
        rewrite IH. rewrite len_app. cbn [Nat.min repeat skipn].
        rewrite <- app_assoc. f_equal. f_equal.
        change (len [MASK]) with 1. lia.
Qed.

(** ** [cleanAuth] *)

Lemma slice_from_app_plus (P R : bytes) (j : Z) :
  0 <= j <= len R ->
  slice_from (P ++ R) (len P + j) = Some (skipn (Z.to_nat j) R).
Proof.
  intros Hj. unfold slice_from. pose proof (len_nonneg P).
  rewrite len_app.
  replace (0 <=? len P + j) with true by (symmetry; apply Z.leb_le; lia).
  replace (len P + j <=? len P + len R) with true
    by (symmetry; apply Z.leb_le; lia).
  simpl. f_equal. unfold len in *.
  replace (Z.to_nat (Z.of_nat (length P) + j))
    with (Z.to_nat j + length P)%nat by lia.
  now rewrite <- skipn_skipn, skipn_app, skipn_all, Nat.sub_diag.
Qed.

Lemma copy_within_app (P R : bytes) (j : Z) :
  0 <= j <= len R ->
  copy_within (P ++ R) (len P) (len P + j) =
  Some (P ++ skipn (Z.to_nat j) R ++ skipn (Z.to_nat (len R - j)) R,
        len R - j).
Proof.
  intros Hj. unfold copy_within.
  rewrite slice_from_app, slice_from_app_plus by exact Hj.
  assert (Hlen : len (skipn (Z.to_nat j) R) = len R - j)
    by (unfold len in *; rewrite length_skipn; lia).
  rewrite Hlen, Z.min_r by lia.
  f_equal. f_equal.
  - unfold len at 1. rewrite Nat2Z.id.
    rewrite firstn_app, firstn_all, Nat.sub_diag. simpl firstn.
    rewrite app_nil_r. f_equal. f_equal.
    rewrite <- Hlen. unfold len. rewrite Nat2Z.id. apply firstn_all.
Qed.

Lemma cleanAuth_window (buf : bytes) :
  slice_to buf (if len buf <? 4096 then len buf else 4096)
  = Some (search_window buf).
Proof.
  unfold search_window. pose proof (len_nonneg buf).
  destruct (len buf <? 4096) eqn:E.
  - apply Z.ltb_lt in E. rewrite Z.min_r by lia.
    unfold len. rewrite Nat2Z.id. apply slice_to_firstn. lia.
  - apply Z.ltb_ge in E. rewrite Z.min_l by lia.
    rewrite <- (Z2Nat.id 4096) at 1 by lia.
    apply slice_to_firstn. unfold len in E. lia.
Qed.

(** When the search does not find the prefix the buffer is returned as
    it is. *)
Lemma cleanAuth_not_found (buf authBuf : bytes) :
  Index (search_window buf) authBuf = -1 -> cleanAuth buf authBuf = Some buf.
Proof.
  intros H. unfold cleanAuth. cbv zeta.
  rewrite cleanAuth_window, H. reflexivity.
Qed.

(** When the search finds the prefix at the end of [pre], the first
    [min 4 (value_len tail)] bytes after the prefix are masked and the
    rest of the line is cut out. *)
Lemma cleanAuth_found (pre authBuf tail : bytes) :
  Index (search_window (pre ++ authBuf ++ tail)) authBuf = len pre ->
  cleanAuth (pre ++ authBuf ++ tail) authBuf =
  Some (pre ++ authBuf ++ repeat MASK (Nat.min 4 (value_len tail))
            ++ from_LF (skipn (Nat.min 4 (value_len tail)) tail)).
Proof.
  intros H. unfold cleanAuth. cbv zeta.
  rewrite cleanAuth_window, H.
  pose proof (len_nonneg pre).
  replace (len pre <? 0) with false by (symmetry; apply Z.ltb_ge; lia).
  rewrite <- len_app, (app_assoc pre authBuf tail), mask_loop_spec.
  set (m := Nat.min 4 (value_len tail)).
  set (P := (pre ++ authBuf) ++ repeat MASK m).
  set (R := skipn m tail).
  replace (len (pre ++ authBuf) + Z.of_nat m) with (len P)
    by (unfold P; rewrite (len_app _ (repeat MASK m)); unfold len;
        now rewrite repeat_length).
  replace ((pre ++ authBuf) ++ repeat MASK m ++ R) with (P ++ R)
    by (unfold P; now rewrite <- !app_assoc).
  replace (pre ++ authBuf ++ repeat MASK m ++ from_LF R)
    with (P ++ from_LF R) by (unfold P; now rewrite <- !app_assoc).
  rewrite slice_from_app.
  destruct (IndexByte_spec R) as [[Hj Hf] | [Hj Hf]].
  - rewrite Hj, Hf, app_nil_r. simpl. apply slice_to_app.
  - replace (IndexByte R LF <? 0) with false
      by (symmetry; apply Z.ltb_ge; lia).
    rewrite copy_within_app by lia. rewrite Hf.
    replace (len P + (len R - IndexByte R LF)) with (len (P ++ from_LF R)).
    + rewrite app_assoc. apply slice_to_app.
    + rewrite len_app, <- Hf. unfold len in *. rewrite length_skipn. lia.
Qed.

(** An occurrence inside the search window is an occurrence in the
    buffer, at the same offset. *)
Lemma occurs_in_window (buf sep : bytes) (k : nat) :
  occurs_at (search_window buf) sep k -> occurs_at buf sep k.
Proof.
  intros (a & b & H & Hk). unfold search_window in H.
  exists a, (b ++ skipn (Z.to_nat (Z.min 4096 (len buf))) buf).
  split; [|exact Hk].
  rewrite <- (firstn_skipn (Z.to_nat (Z.min 4096 (len buf))) buf) at 1.
  rewrite H. now rewrite <- !app_assoc.
Qed.

(** A prefix that ends within the first 4096 bytes lies in the window. *)
Lemma window_covers (pre authBuf tail : bytes) :
  (length pre + length authBuf <= 4096)%nat ->
  exists b, search_window (pre ++ authBuf ++ tail) = pre ++ authBuf ++ b.
Proof.
  intros H. unfold search_window.
  set (n := Z.to_nat (Z.min 4096 (len (pre ++ authBuf ++ tail)))).
  assert (Hn : (length (pre ++ authBuf) <= n)%nat).
  { unfold n, len. rewrite !length_app. lia. }
  exists (firstn (n - length (pre ++ authBuf)) tail).
  rewrite (app_assoc pre authBuf tail), firstn_app.
  rewrite firstn_all2 by exact Hn. now rewrite <- app_assoc.
Qed.

(** The search finds the first occurrence of the prefix when that
    occurrence ends within the first 4096 bytes. *)
Lemma Index_first_in_window (pre authBuf tail : bytes) :
  (forall k, occurs_at (pre ++ authBuf ++ tail) authBuf k ->
             (length pre <= k)%nat) ->
  (length pre + length authBuf <= 4096)%nat ->
  Index (search_window (pre ++ authBuf ++ tail)) authBuf = len pre.
Proof.
  intros Hfirst Hwin.
  destruct (window_covers pre authBuf tail Hwin) as [b0 Hb0].
  destruct (Index_spec (search_window (pre ++ authBuf ++ tail)) authBuf)
    as [[_ Hnone] | (a & b & Hw & Hi & Hmin)].
  - exfalso. exact (Hnone _ _ Hb0).
  - rewrite Hi. unfold len. f_equal.
    apply Nat.le_antisymm.
    + apply (Hmin pre b0). exact Hb0.
    + apply Hfirst. apply occurs_in_window. now exists a, b.
Qed.

(** The shape of the output for a value [v] that ends at a line feed. *)
Lemma cleanAuth_value (pre authBuf v rest : bytes) :
  ~ In LF v ->
  (forall k, occurs_at (pre ++ authBuf ++ v ++ LF :: rest) authBuf k ->
             (length pre <= k)%nat) ->
  (length pre + length authBuf <= 4096)%nat ->
  cleanAuth (pre ++ authBuf ++ v ++ LF :: rest) authBuf =
  Some (pre ++ authBuf ++ repeat MASK (Nat.min 4 (length v)) ++ LF :: rest).
Proof.
  intros Hv Hfirst Hwin.
  rewrite cleanAuth_found by (now apply Index_first_in_window).
  rewrite value_len_app by exact Hv.
  do 4 f_equal.
  set (m := Nat.min 4 (length v)).
  rewrite skipn_app.
  assert (Hm : (m <= length v)%nat) by (unfold m; lia).
  replace (m - length v)%nat with O by lia.
  cbn [skipn]. apply from_LF_app.
  intros Hin. apply Hv.
  rewrite <- (firstn_skipn m v). apply in_or_app. now right.
Qed.

(** [cleanAuth] never panics: the search result is either [-1] or the
    offset of an occurrence, from which the masking, the search for the
    line feed and the copy all stay inside the buffer. *)
Lemma cleanAuth_cases (buf authBuf : bytes) :
  cleanAuth buf authBuf = Some buf
  \/ exists pre tail,
       buf = pre ++ authBuf ++ tail
       /\ cleanAuth buf authBuf =
          Some (pre ++ authBuf ++ repeat MASK (Nat.min 4 (value_len tail))
                    ++ from_LF (skipn (Nat.min 4 (value_len tail)) tail)).
Proof.
  destruct (Index_spec (search_window buf) authBuf)
    as [[Hi _] | (a & b & Hw & Hi & _)].
  - left. now apply cleanAuth_not_found.
  - right.
    set (n := Z.to_nat (Z.min 4096 (len buf))).
    exists a, (b ++ skipn n buf).
    assert (Hbuf : buf = a ++ authBuf ++ b ++ skipn n buf).
    { rewrite <- (firstn_skipn n buf) at 1. fold n in Hw.
      unfold search_window in Hw. fold n in Hw. rewrite Hw.
      now rewrite <- !app_assoc. }
    split; [exact Hbuf|].
    rewrite Hbuf at 1. apply cleanAuth_found. now rewrite <- Hbuf.
Qed.

Lemma cleanAuth_total (buf authBuf : bytes) :
  exists out, cleanAuth buf authBuf = Some out
              /\ (length out <= length buf)%nat.
Proof.
  destruct (cleanAuth_cases buf authBuf) as [H | (pre & tail & Hb & H)].
  - exists buf. split; [exact H | lia].
  - eexists. split; [exact H|].
    rewrite Hb. rewrite !length_app, repeat_length.
    pose proof (from_LF_length (skipn (Nat.min 4 (value_len tail)) tail)).
    pose proof (value_len_length tail).
    rewrite length_skipn in H0. lia.
Qed.

Lemma cleanAuths_range_total (auths : list bytes) : forall buf,
  exists out, cleanAuths_range auths buf = Some out.
Proof.
  induction auths as [|a auths IH]; intros buf; simpl.
  - now exists buf.
  - destruct (cleanAuth_total buf a) as (out & -> & _). apply IH.
Qed.

Lemma redactAll_None (prefixes : list bytes) :
  fold_left
    (fun acc prefix =>
       match acc with Some b => cleanAuth b prefix | None => None end)
    prefixes None = None.
Proof. induction prefixes; simpl; auto. Qed.

Lemma cleanAuths_range_redactAll (auths : list bytes) : forall buf,
  cleanAuths_range auths buf = redactAll buf auths.
Proof.
  unfold redactAll.
  induction auths as [|a auths IH]; intros buf; simpl; [reflexivity|].
  destruct (cleanAuth buf a) as [b|]; [apply IH|].
  now rewrite redactAll_None.
Qed.

(** ** Properties of the redaction engine *)

(** C2, amended: take a buffer [pre ++ "Authorization: " ++ v ++ "\n" ++
    rest] in which the value [v] holds no line feed, this occurrence of
    the prefix is the first one of the buffer and it ends within the first
    4096 bytes.  Then [cleanAuth] returns normally; when [v] has at most 4
    bytes the output is the buffer with [v] replaced by as many mask bytes
    ['X'] and nothing else changed; when [v] has more than 4 bytes the
    output has exactly 4 mask bytes after the prefix, followed at once by
    the line feed that ended [v] and everything after it, and it is
    shorter than the input by the length of [v] minus 4. *)
Theorem cleanAuth_Authorization_value (pre v rest : bytes) :
  let authBuf := of_string "Authorization: " in
  let buf := pre ++ authBuf ++ v ++ LF :: rest in
  ~ In LF v ->
  (forall k, occurs_at buf authBuf k -> (length pre <= k)%nat) ->
  (length pre + length authBuf <= 4096)%nat ->
  exists out,
    cleanAuth buf authBuf = Some out
    /\ ((length v <= 4)%nat ->
        out = pre ++ authBuf ++ repeat MASK (length v) ++ LF :: rest)
    /\ ((4 < length v)%nat ->
        out = pre ++ authBuf ++ repeat MASK 4 ++ LF :: rest
        /\ len out = len buf - (len v - 4)).
Proof.
  intros authBuf buf Hv Hfirst Hwin.
  eexists. split; [now apply cleanAuth_value|]. split; intros HL.
  - now rewrite Nat.min_r by exact HL.
  - rewrite Nat.min_l by lia. split; [reflexivity|].
    unfold buf, len. rewrite !length_app, repeat_length. simpl length. lia.
Qed.

(** C2, as stated, fails beyond the search window: after 4096 filler
    bytes the header [Authorization: AAAAA] (a value of length 5 and its
    line feed) is returned unmasked and at full length. *)
Lemma cleanAuth_Authorization_beyond_window :
  let authBuf := of_string "Authorization: " in
  let pre := repeat x61 4096 in
  let buf := pre ++ authBuf ++ of_string "AAAAA" ++ [LF] in
  cleanAuth buf authBuf = Some buf
  /\ cleanAuth buf authBuf <> Some (pre ++ authBuf ++ repeat MASK 4 ++ [LF])
  /\ forall out, cleanAuth buf authBuf = Some out ->
                 len out <> len buf - (5 - 4).
Proof.
  intros authBuf pre buf.
  assert (H : cleanAuth buf authBuf = Some buf) by (vm_compute; reflexivity).
  split; [exact H|]. rewrite H. split.
  - intros E.
    apply (f_equal (fun o => match o with
                             | Some l => length l
                             | None => O
                             end)) in E.
    vm_compute in E. discriminate E.
  - intros out E. assert (out = buf) as -> by congruence.
    vm_compute. discriminate.
Qed.

(** C3: when the prefix does not occur within the first
    [min(4096, len(buf))] bytes of the buffer, and so in particular when
    it does not occur in the buffer at all, [cleanAuth] returns the buffer
    unchanged. *)
Theorem cleanAuth_identity_without_prefix (buf authBuf : bytes) :
  (forall k, ~ occurs_at (search_window buf) authBuf k)
  \/ (forall k, ~ occurs_at buf authBuf k) ->
  cleanAuth buf authBuf = Some buf.
Proof.
  intros H.
  assert (Hw : forall k, ~ occurs_at (search_window buf) authBuf k).
  { destruct H as [H | H]; [exact H|].
    intros k Hk. apply (H k). now apply occurs_in_window. }
  apply cleanAuth_not_found.
  destruct (Index_spec (search_window buf) authBuf)
    as [[Hi _] | (a & b & Hs & _)]; [exact Hi|].
  exfalso. apply (Hw (length a)). now exists a, b.
Qed.

(** C9: [cleanAuth] returns normally for every buffer and every prefix:
    no index expression, assignment or slice expression of its body
    leaves the buffer.  The output is never longer than the input; it is
    either the input, or the input with the first
    [min 4 (value_len tail)] bytes after the prefix masked (never more
    than the value has before its line feed or the end of the buffer,
    so nothing at all for an empty value) and the rest of the line cut
    out. *)
Theorem cleanAuth_total_in_bounds (buf authBuf : bytes) :
  exists out,
    cleanAuth buf authBuf = Some out
    /\ (length out <= length buf)%nat
    /\ (out = buf
        \/ exists pre tail m,
             buf = pre ++ authBuf ++ tail
             /\ m = Nat.min 4 (value_len tail)
             /\ (m <= value_len tail)%nat
             /\ (length pre + length authBuf + m <= length buf)%nat
             /\ out = pre ++ authBuf ++ repeat MASK m
                          ++ from_LF (skipn m tail)).
Proof.
  destruct (cleanAuth_total buf authBuf) as (out & Hout & Hlen).
  exists out. repeat split; [exact Hout | exact Hlen |].
  destruct (cleanAuth_cases buf authBuf) as [H | (pre & tail & Hb & H)].
  - left. congruence.
  - right. exists pre, tail, (Nat.min 4 (value_len tail)).
    pose proof (value_len_length tail).
    repeat split; [exact Hb | lia | | congruence].
    rewrite Hb. rewrite !length_app. lia.
Qed.

(** C10: only the line feed ends a value.  Take a matched header line
    that ends with a carriage return and a line feed: the buffer is
    [pre ++ authBuf ++ v ++ "\r\n" ++ rest], [v] holds no line feed, and
    the search finds this occurrence.  When [v] is shorter than 4 bytes
    the carriage return is masked as well, which gives one mask byte more
    than [v] has bytes; when [v] has 4 bytes or more the carriage return
    is cut out with the rest of the value.  Either way the redacted line
    ends with a mask byte and a bare line feed. *)
Theorem cleanAuth_carriage_return (pre authBuf v rest : bytes) :
  let buf := pre ++ authBuf ++ v ++ CR :: LF :: rest in
  ~ In LF v ->
  (forall k, occurs_at buf authBuf k -> (length pre <= k)%nat) ->
  (length pre + length authBuf <= 4096)%nat ->
  exists out,
    cleanAuth buf authBuf = Some out
    /\ ((length v < 4)%nat ->
        out = pre ++ authBuf ++ repeat MASK (S (length v)) ++ LF :: rest)
    /\ ((4 <= length v)%nat ->
        out = pre ++ authBuf ++ repeat MASK 4 ++ LF :: rest).
Proof.
  intros buf Hv Hfirst Hwin.
  assert (Hbuf : buf = pre ++ authBuf ++ (v ++ [CR]) ++ LF :: rest)
    by (unfold buf; now rewrite <- app_assoc).
  assert (Hv' : ~ In LF (v ++ [CR])).
  { intros Hin. apply in_app_or in Hin as [Hin | [Hin | []]];
      [now apply Hv | discriminate Hin]. }
  eexists. split.
  - rewrite Hbuf. apply cleanAuth_value; [exact Hv' | | exact Hwin].
    now rewrite <- Hbuf.
  - rewrite length_app. simpl length. split; intros HL.
    + rewrite Nat.min_r by lia. now rewrite Nat.add_1_r.
    + now rewrite Nat.min_l by lia.
Qed.

(** Discharges "no occurrence of the prefix before offset [n]" on a
    concrete buffer by running through the shorter offsets. *)
Tactic Notation "first_occurrence" integer(n) :=
  let a := fresh "a" in
  let b := fresh "b" in
  let H := fresh "H" in
  intros ? (a & b & H & <-);
  vm_compute in H;
  do n (destruct a as [|? a]; [discriminate H|]);
  simpl; lia.

Ltac no_line_feed :=
  let H := fresh "H" in
  intros H; vm_compute in H; repeat destruct H as [H|H]; discriminate H || exact H.

Lemma cleanAuth_Authorization_value_witness :
  exists out,
    cleanAuth (of_string "Sausage: 1" ++ [LF]
               ++ of_string "Authorization: " ++ of_string "AAAAAAAAA"
               ++ LF :: of_string "Potato: Help" ++ [LF])
              (of_string "Authorization: ") = Some out
    /\ out = of_string "Sausage: 1" ++ [LF]
             ++ of_string "Authorization: XXXX"
             ++ LF :: of_string "Potato: Help" ++ [LF].
Proof.
  destruct (cleanAuth_Authorization_value
              (of_string "Sausage: 1" ++ [LF]) (of_string "AAAAAAAAA")
              (of_string "Potato: Help" ++ [LF]))
    as (out & Hout & _ & Hlong).
  - no_line_feed.
  - first_occurrence 11.
  - vm_compute. lia.
  - exists out. split.
    + rewrite <- Hout. now rewrite <- app_assoc.
    + apply Hlong. vm_compute. lia.
Defined.

Lemma cleanAuth_identity_without_prefix_witness :
  let buf := repeat x61 4096 ++ of_string "Authorization: SECRET" ++ [LF] in
  cleanAuth buf (of_string "Authorization: ") = Some buf.
Proof.
  intros buf. apply (cleanAuth_identity_without_prefix buf).
  left. intros k (a & b & H & _).
  assert (F : forallb (Byte.eqb x61) (search_window buf) = true)
    by (vm_compute; reflexivity).
  rewrite H, !forallb_app in F.
  apply andb_true_iff in F as [_ F]. apply andb_true_iff in F as [F _].
  vm_compute in F. discriminate F.
Defined.

Lemma cleanAuth_carriage_return_witness :
  exists out,
    cleanAuth (of_string "Host: h" ++ [CR; LF]
               ++ of_string "Authorization: " ++ of_string "AB"
               ++ CR :: LF :: [CR; LF])
              (of_string "Authorization: ") = Some out
    /\ out = of_string "Host: h" ++ [CR; LF]
             ++ of_string "Authorization: XXX" ++ LF :: [CR; LF].
Proof.
  destruct (cleanAuth_carriage_return
              (of_string "Host: h" ++ [CR; LF])
              (of_string "Authorization: ") (of_string "AB") [CR; LF])
    as (out & Hout & Hshort & _).
  - no_line_feed.
  - first_occurrence 9.
  - vm_compute. lia.
  - exists out. split.
    + rewrite <- Hout. now rewrite <- app_assoc.
    + apply Hshort. vm_compute. lia.
Defined.

(** C4: [cleanAuths] is [cleanAuth] applied once for each prefix of the
    configured [Auth] list, in the order of the list, each pass on the
    buffer the previous pass returned; with the default prefixes the
    input of [TestCleanAuths] that carries both headers comes out with
    both values masked as [XXXX] and the line [Potato: Help] as it was. *)
Theorem cleanAuths_in_configuration_order
    (Request Error World HttpTransport : Type) :
  (forall (t : @Transport Request Error World HttpTransport) buf,
      cleanAuths t buf = redactAll buf (Options.Auth (opt t)))
  /\ (forall buf, redactAll buf [] = Some buf)
  /\ (forall buf prefix rest,
         redactAll buf (prefix :: rest) =
         match cleanAuth buf prefix with
         | Some buf' => redactAll buf' rest
         | None => None
         end)
  /\ (forall (h : HttpTransport) flags logf,
         cleanAuths
           (mkTransport h (@Options.mk Request Error World flags logf Auth))
           (of_string "X-Auth-Token: AAAAAAAAA" ++ [LF]
            ++ of_string "Authorization: AAAAAAAAA" ++ [LF]
            ++ of_string "Potato: Help" ++ [LF])
         = Some (of_string "X-Auth-Token: XXXX" ++ [LF]
                 ++ of_string "Authorization: XXXX" ++ [LF]
                 ++ of_string "Potato: Help" ++ [LF])).
Proof.
  split; [|split; [|split]].
  - intros t buf. apply cleanAuths_range_redactAll.
  - reflexivity.
  - intros buf prefix rest. unfold redactAll. simpl.
    destruct (cleanAuth buf prefix); [reflexivity | apply redactAll_None].
  - intros h flags logf. vm_compute. reflexivity.
Qed.

(** ** Flags *)

Lemma flags_and_ne0_set (flags mask : Z) :
  flags_and_ne0 flags mask = true <-> flag_set flags mask.
Proof.
  unfold flags_and_ne0, flag_set.
  rewrite negb_true_iff, Z.eqb_neq. reflexivity.
Qed.

Lemma flags_and_ne0_lor (flags a b : Z) :
  flags_and_ne0 flags (Z.lor a b)
  = flags_and_ne0 flags a || flags_and_ne0 flags b.
Proof.
  unfold flags_and_ne0. rewrite Z.land_lor_distr_r, <- negb_andb.
  f_equal. apply eq_true_iff_eq.
  rewrite andb_true_iff, !Z.eqb_eq. apply Z.lor_eq_0_iff.
Qed.

Lemma flags_and_ne0_any (flags : Z) :
  flags_and_ne0 flags
    (Z.lor (Z.lor (Z.lor (Z.lor DumpHeaders DumpBodies) DumpAuth)
              DumpRequests) DumpResponses) = true
  <-> logging_enabled flags.
Proof.
  unfold logging_enabled.
  rewrite !flags_and_ne0_lor, !orb_true_iff, !flags_and_ne0_set. tauto.
Qed.

(** ** Runs of [RoundTrip] *)

Section Runs.

Context {Request Response Error World HttpTransport : Type}.
Context {collaborators :
           Collaborators Request Response Error World HttpTransport}.
Implicit Type t : @Transport Request Error World HttpTransport.

Local Notation "'ALL'" :=
  (Z.lor (Z.lor (Z.lor (Z.lor DumpHeaders DumpBodies) DumpAuth)
            DumpRequests) DumpResponses).

(** [RoundTrip] is its two logging blocks around the dispatch. *)
Lemma RoundTrip_blocks t (req : Request) :
  RoundTrip t req = RoundTrip_in_blocks t req.
Proof. reflexivity. Qed.

(** The request half: nothing when logging is off; otherwise the
    separator, the banner, the dump, one line for the dump and the
    separator. *)
Lemma log_request_run t (req : Request) (w : World) :
  let flags := Options.Flags (opt t) in
  exists w' tr,
    log_request t req w = Some (tt, w', tr)
    /\ (flags_and_ne0 flags ALL = false -> tr = [] /\ w' = w)
    /\ (flags_and_ne0 flags ALL = true ->
        exists d block,
          tr = [ CallLogf "%s" [ArgString SeparatorReq];
                 CallLogf "%s (req %p)"
                   [ArgString (of_string "HTTP REQUEST"); ArgPointer req];
                 CallDumpRequestOut req
                   (flags_and_ne0 flags (Z.lor DumpBodies DumpRequests)) d;
                 CallLogf (fst block) (snd block);
                 CallLogf "%s" [ArgString SeparatorReq] ]
          /\ match d with
             | inr derr =>
                 block = ("Dump request failed: %v"%string, [ArgError derr])
             | inl buf =>
                 exists out,
                   block = ("%s"%string, [ArgString out])
                   /\ (if Z.land flags DumpAuth =? 0
                       then cleanAuths t buf = Some out else out = buf)
             end).
Proof.
  intros flags. unfold log_request. cbv zeta. fold flags.
  destruct (flags_and_ne0 flags ALL) eqn:E.
  - unfold bind, call_Logf, call_DumpRequestOut.
    destruct (DumpRequestOut req _ _) as [[buf | derr] w2] eqn:D.
    + destruct (Z.land flags DumpAuth =? 0) eqn:A.
      * destruct (cleanAuths_range_total (Options.Auth (opt t)) buf)
          as [out Hout].
        unfold lift_panic, cleanAuths. rewrite Hout.
        eexists _, _. split; [reflexivity|].
        split; [discriminate|]. intros _.
        exists (inl buf), ("%s"%string, [ArgString out]).
        split; [reflexivity|]. exists out. now split.
      * unfold ret.
        eexists _, _. split; [reflexivity|].
        split; [discriminate|]. intros _.
        exists (inl buf), ("%s"%string, [ArgString buf]).
        split; [reflexivity|]. exists buf. now split.
    + eexists _, _. split; [reflexivity|].
      split; [discriminate|]. intros _.
      exists (inr derr), ("Dump request failed: %v"%string, [ArgError derr]).
      now split.
  - unfold ret. eexists _, _. split; [reflexivity|].
    split; [now split | discriminate].
Qed.

(** The response half: nothing when logging is off; otherwise the
    separator, the banner, then either the dispatch error, or the dump
    and one line for it, and the separator.  The dumped buffer is logged
    as [httputil.DumpResponse] returned it. *)
Lemma log_response_run t (req : Request) (resp : Response)
    (err : option Error) (w : World) :
  let flags := Options.Flags (opt t) in
  exists w' tr,
    log_response t req resp err w = Some (tt, w', tr)
    /\ (flags_and_ne0 flags ALL = false -> tr = [] /\ w' = w)
    /\ (flags_and_ne0 flags ALL = true ->
        match err with
        | Some e =>
            tr = [ CallLogf "%s" [ArgString SeparatorResp];
                   CallLogf "%s (req %p)"
                     [ArgString (of_string "HTTP RESPONSE"); ArgPointer req];
                   CallLogf "HTTP request failed: %v" [ArgError e];
                   CallLogf "%s" [ArgString SeparatorResp] ]
        | None =>
            exists d,
              tr = [ CallLogf "%s" [ArgString SeparatorResp];
                     CallLogf "%s (req %p)"
                       [ArgString (of_string "HTTP RESPONSE");
                        ArgPointer req];
                     CallDumpResponse resp
                       (flags_and_ne0 flags (Z.lor DumpBodies DumpResponses))
                       d;
                     match d with
                     | inl buf => CallLogf "%s" [ArgString buf]
                     | inr derr =>
                         CallLogf "Dump response failed: %v" [ArgError derr]
                     end;
                     CallLogf "%s" [ArgString SeparatorResp] ]
        end).
Proof.
  intros flags. unfold log_response. cbv zeta. fold flags.
  destruct (flags_and_ne0 flags ALL) eqn:E.
  - unfold bind, call_Logf, call_DumpResponse.
    destruct err as [e|].
    + eexists _, _. split; [reflexivity|].
      split; [discriminate | reflexivity].
    + destruct (DumpResponse resp _ _) as [[buf | derr] w2] eqn:D.
      * eexists _, _. split; [reflexivity|].
        split; [discriminate|]. intros _. now exists (inl buf).
      * eexists _, _. split; [reflexivity|].
        split; [discriminate|]. intros _. now exists (inr derr).
  - unfold ret. eexists _, _. split; [reflexivity|].
    split; [now split | discriminate].
Qed.

(** [RoundTrip] never panics; it runs the request half, the wrapped
    transport and the response half, and returns what the wrapped
    transport returned. *)
Lemma RoundTrip_run t (req : Request) (w : World) :
  exists w1 tr1 res w2 w3 tr2,
    log_request t req w = Some (tt, w1, tr1)
    /\ http_RoundTrip (Transport_ t) req w1 = (res, w2)
    /\ log_response t req (fst res) (snd res) w2 = Some (tt, w3, tr2)
    /\ RoundTrip t req w = Some (res, w3, tr1 ++ CallRoundTrip req res :: tr2).
Proof.
  destruct (log_request_run t req w) as (w1 & tr1 & H1 & _).
  destruct (http_RoundTrip (Transport_ t) req w1) as [res w2] eqn:H2.
  destruct (log_response_run t req (fst res) (snd res) w2)
    as (w3 & tr2 & H3 & _).
  exists w1, tr1, res, w2, w3, tr2. repeat split; try assumption.
  rewrite RoundTrip_blocks.
  unfold RoundTrip_in_blocks, bind, call_RoundTrip, ret.
  rewrite H1, H2, H3. destruct res. simpl. now rewrite app_nil_r.
Qed.

(** *** The trace is true to the calls made *)

Lemma replay_app t (tr1 tr2 : list (@Call Request Response Error))
    (w : World) :
  replay t (tr1 ++ tr2) w =
  (fst (replay t tr1 w) ++ fst (replay t tr2 (snd (replay t tr1 w))),
   snd (replay t tr2 (snd (replay t tr1 w)))).
Proof.
  revert w. induction tr1 as [|c tr1 IH]; intros w.
  - simpl. now destruct (replay t tr2 w).
  - cbn [app replay].
    destruct c as [f a | rq b r | rq r | rs b r].
    + rewrite IH. destruct (replay t tr1 _). reflexivity.
    + destruct (DumpRequestOut rq b w) as [r' w1].
      rewrite IH. destruct (replay t tr1 w1). reflexivity.
    + destruct (http_RoundTrip (Transport_ t) rq w) as [r' w1].
      rewrite IH. destruct (replay t tr1 w1). reflexivity.
    + destruct (DumpResponse rs b w) as [r' w1].
      rewrite IH. destruct (replay t tr1 w1). reflexivity.
Qed.

Lemma replays_ret t {A} (a : A) : replays t (ret a).
Proof. intros w b w' tr H. injection H as _ <- <-. reflexivity. Qed.

Lemma replays_lift_panic t {A} (o : option A) : replays t (lift_panic o).
Proof.
  intros w b w' tr H. unfold lift_panic in H.
  destruct o; [|discriminate H]. injection H as _ <- <-. reflexivity.
Qed.

Lemma replays_bind t {A B}
    (m : World -> option (A * World * list (@Call Request Response Error)))
    (f : A -> World -> option (B * World * list (@Call Request Response Error))) :
  replays t m -> (forall a, replays t (f a)) -> replays t (bind m f).
Proof.
  intros Hm Hf w b w' tr H. unfold bind in H.
  destruct (m w) as [[[a w1] tr1]|] eqn:Em; [|discriminate H].
  destruct (f a w1) as [[[b' w2] tr2]|] eqn:Ef; [|discriminate H].
  injection H as <- <- <-.
  rewrite replay_app, (Hm _ _ _ _ Em). cbn [fst snd].
  now rewrite (Hf _ _ _ _ _ Ef).
Qed.

Lemma replays_call_Logf t format args : replays t (call_Logf t format args).
Proof. intros w a w' tr H. injection H as _ <- <-. reflexivity. Qed.

Lemma replays_call_DumpRequestOut t (req : Request) (body : bool) :
  replays t (call_DumpRequestOut req body).
Proof.
  intros w a w' tr H. unfold call_DumpRequestOut in H.
  destruct (DumpRequestOut req body w) as [r w1] eqn:E.
  injection H as <- <- <-. cbn [replay]. now rewrite E.
Qed.

Lemma replays_call_DumpResponse t (resp : Response) (body : bool) :
  replays t (call_DumpResponse resp body).
Proof.
  intros w a w' tr H. unfold call_DumpResponse in H.
  destruct (DumpResponse resp body w) as [r w1] eqn:E.
  injection H as <- <- <-. cbn [replay]. now rewrite E.
Qed.

Lemma replays_call_RoundTrip t (req : Request) :
  replays t (call_RoundTrip t req).
Proof.
  intros w a w' tr H. unfold call_RoundTrip in H.
  destruct (http_RoundTrip (Transport_ t) req w) as [r w1] eqn:E.
  injection H as <- <- <-. cbn [replay]. now rewrite E.
Qed.

(** Every call [RoundTrip] records is a call it made, with the arguments
    and the result recorded, and it made no other: the world it leaves
    is the world these calls leave. *)
Lemma RoundTrip_replays t (req : Request) : replays t (RoundTrip t req).
Proof.
  unfold RoundTrip. cbv zeta.
  repeat first
    [ apply replays_bind
    | apply replays_ret
    | apply replays_lift_panic
    | apply replays_call_Logf
    | apply replays_call_DumpRequestOut
    | apply replays_call_DumpResponse
    | apply replays_call_RoundTrip
    | match goal with
      | |- forall _, replays _ _ => intro
      | |- replays _ (let _ := _ in _) => cbv zeta
      | |- replays _ (if ?c then _ else _) => destruct c
      | |- replays _ (match ?x with inl _ => _ | inr _ => _ end) =>
          destruct x
      | |- replays _ (match ?x with Some _ => _ | None => _ end) =>
          destruct x
      end ].
Qed.

Lemma replays_request t (req : Request) : replays t (log_request t req).
Proof.
  unfold log_request. cbv zeta.
  repeat first
    [ apply replays_bind
    | apply replays_ret
    | apply replays_lift_panic
    | apply replays_call_Logf
    | apply replays_call_DumpRequestOut
    | match goal with
      | |- forall _, replays _ _ => intro
      | |- replays _ (if ?c then _ else _) => destruct c
      | |- replays _ (match ?x with inl _ => _ | inr _ => _ end) =>
          destruct x
      end ].
Qed.

Lemma replays_response t (req : Request) (resp : Response)
    (err : option Error) :
  replays t (log_response t req resp err).
Proof.
  unfold log_response. cbv zeta.
  repeat first
    [ apply replays_bind
    | apply replays_ret
    | apply replays_call_Logf
    | apply replays_call_DumpResponse
    | match goal with
      | |- forall _, replays _ _ => intro
      | |- replays _ (if ?c then _ else _) => destruct c
      | |- replays _ (match ?x with inl _ => _ | inr _ => _ end) =>
          destruct x
      | |- replays _ (match ?x with Some _ => _ | None => _ end) =>
          destruct x
      end ].
Qed.

(** A call of the trace that is not there: used on the traces of
    [log_request_run] and [log_response_run]. *)
Ltac absent_call H :=
  simpl in H;
  repeat (destruct H as [H | H]; [try discriminate H|]);
  try contradiction.

(** ** Properties of the interception layer *)

(** C5: [RoundTrip] returns normally, and its trace is true to the calls
    it made: made again from [w], the calls of [tr] return what [tr]
    records and leave the world [w'].  Among them there is a call of the
    configured logging function exactly when one of [DumpHeaders],
    [DumpBodies], [DumpRequests], [DumpResponses], [DumpAuth] is set.
    With [Flags == 0] the only call made is the dispatch to the wrapped
    transport, from the world [RoundTrip] started in: no line is logged,
    and the result and the world are those of the dispatch. *)
Theorem RoundTrip_logs_iff_flag_set t (req : Request) (w : World) :
  exists res w' tr,
    RoundTrip t req w = Some (res, w', tr)
    /\ replay t tr w = (tr, w')
    /\ ((exists format args, In (CallLogf format args) tr)
        <-> logging_enabled (Options.Flags (opt t)))
    /\ (Options.Flags (opt t) = 0 ->
        tr = [CallRoundTrip req res]
        /\ http_RoundTrip (Transport_ t) req w = (res, w')).
Proof.
  destruct (RoundTrip_run t req w)
    as (w1 & tr1 & res & w2 & w3 & tr2 & H1 & H2 & H3 & HR).
  destruct (log_request_run t req w) as (w1' & tr1' & H1' & Hoff1 & Hon1).
  destruct (log_response_run t req (fst res) (snd res) w2)
    as (w3' & tr2' & H3' & Hoff2 & _).
  rewrite H1 in H1'. injection H1' as <- <-.
  rewrite H3 in H3'. injection H3' as <- <-.
  exists res, w3, (tr1 ++ CallRoundTrip req res :: tr2).
  split; [exact HR|].
  split; [exact (RoundTrip_replays t req _ _ _ _ HR)|].
  rewrite <- flags_and_ne0_any.
  destruct (flags_and_ne0 (Options.Flags (opt t)) ALL) eqn:E.
  - destruct (Hon1 eq_refl) as (d & block & -> & _). split.
    + split; [reflexivity|]. intros _.
      exists "%s"%string, [ArgString SeparatorReq]. now left.
    + intros Hz. rewrite Hz in E. discriminate E.
  - destruct (Hoff1 eq_refl) as [-> ->]. destruct (Hoff2 eq_refl) as [-> ->].
    split; [|intros _; split; [reflexivity | exact H2]].
    split; [|discriminate].
    intros (format & args & [H | []]). discriminate H.
Qed.

(** C6: with only [DumpHeaders] set, a round trip whose dispatch and two
    serializations succeed makes exactly these calls, in this order, each
    with the arguments and the result recorded, and leaves the world they
    leave: the logging function 8 times (request separator, request
    banner, request dump block, request separator, response separator,
    response banner, response dump block, response separator), with
    [DumpRequestOut] before the request block, the dispatch between the
    two groups and [DumpResponse] before the response block.  Both dumps
    are taken without the body; the request block is the request dump
    after [cleanAuths], the response block is the response dump. *)
Theorem RoundTrip_DumpHeaders_eight_lines t (req : Request) (w : World)
    res w' tr :
  Options.Flags (opt t) = DumpHeaders ->
  RoundTrip t req w = Some (res, w', tr) ->
  snd res = None ->
  (forall r b e, ~ In (CallDumpRequestOut r b (inr e)) tr) ->
  (forall r b e, ~ In (CallDumpResponse r b (inr e)) tr) ->
  replay t tr w = (tr, w')
  /\ exists reqbuf reqblock respbuf,
       tr = [ CallLogf "%s" [ArgString SeparatorReq];
              CallLogf "%s (req %p)"
                [ArgString (of_string "HTTP REQUEST"); ArgPointer req];
              CallDumpRequestOut req false (inl reqbuf);
              CallLogf "%s" [ArgString reqblock];
              CallLogf "%s" [ArgString SeparatorReq];
              CallRoundTrip req res;
              CallLogf "%s" [ArgString SeparatorResp];
              CallLogf "%s (req %p)"
                [ArgString (of_string "HTTP RESPONSE"); ArgPointer req];
              CallDumpResponse (fst res) false (inl respbuf);
              CallLogf "%s" [ArgString respbuf];
              CallLogf "%s" [ArgString SeparatorResp] ]
       /\ cleanAuths t reqbuf = Some reqblock
       /\ logf_calls tr =
          [ ("%s"%string, [ArgString SeparatorReq]);
            ("%s (req %p)"%string,
             [ArgString (of_string "HTTP REQUEST"); ArgPointer req]);
            ("%s"%string, [ArgString reqblock]);
            ("%s"%string, [ArgString SeparatorReq]);
            ("%s"%string, [ArgString SeparatorResp]);
            ("%s (req %p)"%string,
             [ArgString (of_string "HTTP RESPONSE"); ArgPointer req]);
            ("%s"%string, [ArgString respbuf]);
            ("%s"%string, [ArgString SeparatorResp]) ].
Proof.
  intros HF Hrun Hdisp Hreq Hresp.
  split; [exact (RoundTrip_replays t req _ _ _ _ Hrun)|].
  destruct (RoundTrip_run t req w)
    as (w1 & tr1 & res0 & w2 & w3 & tr2 & H1 & H2 & H3 & HR).
  rewrite Hrun in HR. injection HR as -> -> ->.
  destruct (log_request_run t req w) as (w1' & tr1' & H1' & _ & Hon1).
  destruct (log_response_run t req (fst res0) (snd res0) w2)
    as (w3' & tr2' & H3' & _ & Hon2).
  rewrite H1 in H1'. injection H1' as <- <-.
  rewrite H3 in H3'. injection H3' as <- <-.
  rewrite HF in Hon1, Hon2.
  destruct (Hon1 eq_refl) as (d & block & -> & Hblock).
  specialize (Hon2 eq_refl). rewrite Hdisp in Hon2.
  destruct Hon2 as (d' & ->).
  destruct d as [reqbuf | derr].
  2:{ exfalso. apply (Hreq req false derr). simpl. auto. }
  destruct d' as [respbuf | derr].
  2:{ exfalso. apply (Hresp (fst res0) false derr). simpl. auto 12. }
  destruct Hblock as (out & -> & Hout).
  exists reqbuf, out, respbuf.
  split; [reflexivity|]. split; [exact Hout | reflexivity].
Qed.

(** C7: when logging is enabled the request is dumped, and
    [DumpRequestOut] is asked for the body exactly when [DumpBodies] or
    [DumpRequests] is set; the response, when it is dumped (after every
    successful dispatch), is dumped by [DumpResponse] asked for the body
    exactly when [DumpBodies] or [DumpResponses] is set.  With neither
    flag set the dump holds the headers only.  The trace is true to the
    calls made: each dump entry of [tr] is an application of the dump
    routine to the request or response and the body flag recorded, with
    the result recorded. *)
Theorem RoundTrip_body_flags t (req : Request) (w : World) res w' tr :
  let flags := Options.Flags (opt t) in
  logging_enabled flags ->
  RoundTrip t req w = Some (res, w', tr) ->
  replay t tr w = (tr, w')
  /\ (exists body ret, In (CallDumpRequestOut req body ret) tr)
  /\ (forall r body ret,
         In (CallDumpRequestOut r body ret) tr ->
         r = req
         /\ (body = true <->
             flag_set flags DumpBodies \/ flag_set flags DumpRequests))
  /\ (snd res = None ->
      exists body ret, In (CallDumpResponse (fst res) body ret) tr)
  /\ (forall r body ret,
         In (CallDumpResponse r body ret) tr ->
         r = fst res
         /\ (body = true <->
             flag_set flags DumpBodies \/ flag_set flags DumpResponses)).
Proof.
  intros flags Hen Hrun.
  split; [exact (RoundTrip_replays t req _ _ _ _ Hrun)|].
  destruct (RoundTrip_run t req w)
    as (w1 & tr1 & res0 & w2 & w3 & tr2 & H1 & H2 & H3 & HR).
  rewrite Hrun in HR. injection HR as -> -> ->.
  destruct (log_request_run t req w) as (w1' & tr1' & H1' & _ & Hon1).
  destruct (log_response_run t req (fst res0) (snd res0) w2)
    as (w3' & tr2' & H3' & _ & Hon2).
  rewrite H1 in H1'. injection H1' as <- <-.
  rewrite H3 in H3'. injection H3' as <- <-.
  apply flags_and_ne0_any in Hen.
  destruct (Hon1 Hen) as (d & block & -> & _).
  specialize (Hon2 Hen). fold flags in Hon2 |- *.
  assert (Hb : forall a b,
             flags_and_ne0 flags (Z.lor a b) = true
             <-> flag_set flags a \/ flag_set flags b).
  { intros a b.
    now rewrite flags_and_ne0_lor, orb_true_iff, !flags_and_ne0_set. }
  split; [do 2 eexists; simpl; eauto|].
  split.
  { intros r body ret Hin. apply in_app_or in Hin as [Hin | [Hin | Hin]].
    - absent_call Hin. injection Hin as <- <- _.
      split; [reflexivity | exact (Hb DumpBodies DumpRequests)].
    - discriminate Hin.
    - exfalso. destruct (snd res0).
      + subst tr2. absent_call Hin.
      + destruct Hon2 as (d' & ->). absent_call Hin.
        destruct d'; discriminate Hin. }
  split.
  { intros Hok. rewrite Hok in Hon2. destruct Hon2 as (d' & ->).
    do 2 eexists. apply in_or_app. right. simpl. eauto. }
  intros r body ret Hin. apply in_app_or in Hin as [Hin | [Hin | Hin]].
  - exfalso. absent_call Hin.
  - discriminate Hin.
  - destruct (snd res0).
    + subst tr2. exfalso. absent_call Hin.
    + destruct Hon2 as (d' & ->). absent_call Hin.
      * injection Hin as <- <- _.
        split; [reflexivity | exact (Hb DumpBodies DumpResponses)].
      * exfalso. destruct d'; discriminate Hin.
Qed.

(** C8, amended: [RoundTrip] returns normally and returns the very pair
    of response and error that its one call to the wrapped transport
    returned, whatever the two serializations and the logging do.  When
    that call fails and logging is enabled, the error is logged as the
    line [HTTP request failed: ...] between the response banner and the
    closing response separator, and the same error is returned.  The
    trace is true to the calls made: made again from [w], the calls of
    [tr] (the calls of the logging function among them) return what [tr]
    records and leave the world [w']. *)
Theorem RoundTrip_returns_dispatch_result t (req : Request) (w : World) :
  exists res w' tr w1 w2 before after,
    RoundTrip t req w = Some (res, w', tr)
    /\ replay t tr w = (tr, w')
    /\ http_RoundTrip (Transport_ t) req w1 = (res, w2)
    /\ replay t before w = (before, w1)
    /\ replay t after w2 = (after, w')
    /\ tr = before ++ CallRoundTrip req res :: after
    /\ (forall r x, ~ In (CallRoundTrip r x) before)
    /\ (forall r x, ~ In (CallRoundTrip r x) after)
    /\ (forall e,
          snd res = Some e ->
          logging_enabled (Options.Flags (opt t)) ->
          after =
          [ CallLogf "%s" [ArgString SeparatorResp];
            CallLogf "%s (req %p)"
              [ArgString (of_string "HTTP RESPONSE"); ArgPointer req];
            CallLogf "HTTP request failed: %v" [ArgError e];
            CallLogf "%s" [ArgString SeparatorResp] ]
          /\ w' = Options.Logf (opt t) "%s" [ArgString SeparatorResp]
                    (Options.Logf (opt t) "HTTP request failed: %v"
                       [ArgError e]
                       (Options.Logf (opt t) "%s (req %p)"
                          [ArgString (of_string "HTTP RESPONSE");
                           ArgPointer req]
                          (Options.Logf (opt t) "%s"
                             [ArgString SeparatorResp] w2)))).
Proof.
  destruct (RoundTrip_run t req w)
    as (w1 & tr1 & res & w2 & w3 & tr2 & H1 & H2 & H3 & HR).
  destruct (log_request_run t req w) as (w1' & tr1' & H1' & Hoff1 & Hon1).
  destruct (log_response_run t req (fst res) (snd res) w2)
    as (w3' & tr2' & H3' & Hoff2 & Hon2).
  rewrite H1 in H1'. injection H1' as <- <-.
  rewrite H3 in H3'. injection H3' as <- <-.
  assert (R1 : replay t tr1 w = (tr1, w1)).
  { apply (replays_request t req _ _ _ _ H1). }
  assert (R2 : replay t tr2 w2 = (tr2, w3)).
  { apply (replays_response t req (fst res) (snd res) _ _ _ _ H3). }
  exists res, w3, (tr1 ++ CallRoundTrip req res :: tr2), w1, w2, tr1, tr2.
  split; [exact HR|].
  split; [exact (RoundTrip_replays t req _ _ _ _ HR)|].
  split; [exact H2|]. split; [exact R1|]. split; [exact R2|].
  split; [reflexivity|].
  destruct (flags_and_ne0 (Options.Flags (opt t)) ALL) eqn:E.
  - destruct (Hon1 eq_refl) as (d & block & -> & _).
    specialize (Hon2 eq_refl).
    split; [intros r x Hin; absent_call Hin|].
    split.
    + intros r x Hin. destruct (snd res).
      * subst tr2. absent_call Hin.
      * destruct Hon2 as (d' & ->). absent_call Hin.
        destruct d'; discriminate Hin.
    + intros e He _. rewrite He in Hon2. split; [exact Hon2|].
      rewrite Hon2 in R2. cbn [replay] in R2. now injection R2.
  - destruct (Hoff1 eq_refl) as [-> _]. destruct (Hoff2 eq_refl) as [-> _].
    split; [intros r x []|]. split; [intros r x []|].
    intros e _ Hen. apply flags_and_ne0_any in Hen. congruence.
Qed.

End Runs.

(** ** Runs of the small instance *)

Ltac absent_in_run :=
  let H := fresh "H" in
  intros ? ? ? H; vm_compute in H;
  repeat (destruct H as [H | H]; [discriminate H|]);
  exact H.

Lemma RoundTrip_DumpHeaders_eight_lines_witness :
  exists res w' tr,
    Journal.run DumpHeaders (Demo.response, None) Demo.request
    = Some (res, w', tr)
    /\ res = (Demo.response, None)
    /\ w' = Journal.success Demo.request Demo.response false false
              Journal.redacted_request (Demo.head Demo.response)
    /\ replay (collaborators := Journal.collaborators)
         (Journal.transport DumpHeaders (Demo.response, None)) tr []
       = (tr, w')
    /\ exists reqbuf reqblock respbuf,
         tr = [ CallLogf "%s" [ArgString SeparatorReq];
                CallLogf "%s (req %p)"
                  [ArgString (of_string "HTTP REQUEST");
                   ArgPointer Demo.request];
                CallDumpRequestOut Demo.request false (inl reqbuf);
                CallLogf "%s" [ArgString reqblock];
                CallLogf "%s" [ArgString SeparatorReq];
                CallRoundTrip Demo.request res;
                CallLogf "%s" [ArgString SeparatorResp];
                CallLogf "%s (req %p)"
                  [ArgString (of_string "HTTP RESPONSE");
                   ArgPointer Demo.request];
                CallDumpResponse (fst res) false (inl respbuf);
                CallLogf "%s" [ArgString respbuf];
                CallLogf "%s" [ArgString SeparatorResp] ]
         /\ cleanAuths (Journal.transport DumpHeaders (Demo.response, None))
              reqbuf = Some reqblock
         /\ logf_calls tr =
            [ ("%s"%string, [ArgString SeparatorReq]);
              ("%s (req %p)"%string,
               [ArgString (of_string "HTTP REQUEST");
                ArgPointer Demo.request]);
              ("%s"%string, [ArgString reqblock]);
              ("%s"%string, [ArgString SeparatorReq]);
              ("%s"%string, [ArgString SeparatorResp]);
              ("%s (req %p)"%string,
               [ArgString (of_string "HTTP RESPONSE");
                ArgPointer Demo.request]);
              ("%s"%string, [ArgString respbuf]);
              ("%s"%string, [ArgString SeparatorResp]) ].
Proof.
  eexists _, _, _. split; [vm_compute; reflexivity|].
  split; [reflexivity|]. split; [reflexivity|].
  eapply (RoundTrip_DumpHeaders_eight_lines
            (collaborators := Journal.collaborators)
            (Journal.transport DumpHeaders (Demo.response, None))
            Demo.request []).
  - reflexivity.
  - vm_compute. reflexivity.
  - reflexivity.
  - absent_in_run.
  - absent_in_run.
Defined.

Lemma RoundTrip_body_flags_witness :
  (exists res w' tr,
      Journal.run DumpRequests (Demo.response, None) Demo.request
      = Some (res, w', tr)
      /\ w' = Journal.success Demo.request Demo.response true false
                (Journal.redacted_request ++ Demo.body Demo.request)
                (Demo.head Demo.response)
      /\ replay (collaborators := Journal.collaborators)
           (Journal.transport DumpRequests (Demo.response, None)) tr []
         = (tr, w')
      /\ (exists body ret, In (CallDumpRequestOut Demo.request body ret) tr)
      /\ (forall r body ret,
             In (CallDumpRequestOut r body ret) tr ->
             r = Demo.request
             /\ (body = true <->
                 flag_set DumpRequests DumpBodies
                 \/ flag_set DumpRequests DumpRequests))
      /\ (snd res = None ->
          exists body ret, In (CallDumpResponse (fst res) body ret) tr)
      /\ (forall r body ret,
             In (CallDumpResponse r body ret) tr ->
             r = fst res
             /\ (body = true <->
                 flag_set DumpRequests DumpBodies
                 \/ flag_set DumpRequests DumpResponses)))
  /\ (exists res w' tr,
         Journal.run DumpResponses (Demo.response, None) Demo.request
         = Some (res, w', tr)
         /\ w' = Journal.success Demo.request Demo.response false true
                   Journal.redacted_request
                   (Demo.head Demo.response ++ Demo.body Demo.response)
         /\ replay (collaborators := Journal.collaborators)
              (Journal.transport DumpResponses (Demo.response, None)) tr []
            = (tr, w')
         /\ (exists body ret,
                In (CallDumpRequestOut Demo.request body ret) tr)
         /\ (forall r body ret,
                In (CallDumpRequestOut r body ret) tr ->
                r = Demo.request
                /\ (body = true <->
                    flag_set DumpResponses DumpBodies
                    \/ flag_set DumpResponses DumpRequests))
         /\ (snd res = None ->
             exists body ret, In (CallDumpResponse (fst res) body ret) tr)
         /\ (forall r body ret,
                In (CallDumpResponse r body ret) tr ->
                r = fst res
                /\ (body = true <->
                    flag_set DumpResponses DumpBodies
                    \/ flag_set DumpResponses DumpResponses))).
Proof.
  split.
  - eexists _, _, _. split; [vm_compute; reflexivity|].
    split; [reflexivity|].
    eapply (RoundTrip_body_flags
              (collaborators := Journal.collaborators)
              (Journal.transport DumpRequests (Demo.response, None))
              Demo.request []).
    + right. right. left. vm_compute. discriminate.
    + vm_compute. reflexivity.
  - eexists _, _, _. split; [vm_compute; reflexivity|].
    split; [reflexivity|].
    eapply (RoundTrip_body_flags
              (collaborators := Journal.collaborators)
              (Journal.transport DumpResponses (Demo.response, None))
              Demo.request []).
    + right. right. right. left. vm_compute. discriminate.
    + vm_compute. reflexivity.
Defined.

Lemma RoundTrip_logs_iff_flag_set_witness :
  (exists res w' tr,
      Journal.run 0 (Demo.response, None) Demo.request = Some (res, w', tr)
      /\ w' = [Journal.Dispatched Demo.request]
      /\ tr = [CallRoundTrip Demo.request res]
      /\ ~ (exists format args, In (CallLogf format args) tr))
  /\ (exists res w' tr,
         Journal.run DumpAuth (Demo.response, None) Demo.request
         = Some (res, w', tr)
         /\ w' = Journal.success Demo.request Demo.response false false
                   (Demo.head Demo.request) (Demo.head Demo.response)
         /\ exists format args, In (CallLogf format args) tr).
Proof.
  split.
  - destruct (RoundTrip_logs_iff_flag_set
                (collaborators := Journal.collaborators)
                (Journal.transport 0 (Demo.response, None))
                Demo.request [])
      as (res & w' & tr & Hrun & _ & Hiff & Hzero).
    destruct (Hzero eq_refl) as [Htr Hd].
    exists res, w', tr. split; [exact Hrun|].
    split; [now injection Hd as _ <-|].
    split; [exact Htr|].
    intros Hex. apply Hiff in Hex.
    repeat (destruct Hex as [Hex | Hex]; [now apply Hex|]). now apply Hex.
  - destruct (RoundTrip_logs_iff_flag_set
                (collaborators := Journal.collaborators)
                (Journal.transport DumpAuth (Demo.response, None))
                Demo.request [])
      as (res & w' & tr & Hrun & _ & Hiff & _).
    exists res, w', tr. split; [exact Hrun|].
    split.
    + vm_compute in Hrun. now injection Hrun as _ <- _.
    + apply Hiff. do 4 right. vm_compute. discriminate.
Defined.

Lemma RoundTrip_returns_dispatch_result_witness :
  exists res w' tr,
    Journal.run DumpHeaders
      (Journal.empty, Some "connection refused"%string) Demo.request
    = Some (res, w', tr)
    /\ res = (Journal.empty, Some "connection refused"%string)
    /\ w' = [ Journal.Printed "%s" [ArgString SeparatorReq];
              Journal.Printed "%s (req %p)"
                [ArgString (of_string "HTTP REQUEST");
                 ArgPointer Demo.request];
              Journal.DumpedRequest Demo.request false;
              Journal.Printed "%s" [ArgString Journal.redacted_request];
              Journal.Printed "%s" [ArgString SeparatorReq];
              Journal.Dispatched Demo.request;
              Journal.Printed "%s" [ArgString SeparatorResp];
              Journal.Printed "%s (req %p)"
                [ArgString (of_string "HTTP RESPONSE");
                 ArgPointer Demo.request];
              Journal.Printed "HTTP request failed: %v"
                [ArgError "connection refused"%string];
              Journal.Printed "%s" [ArgString SeparatorResp] ].
Proof.
  destruct (RoundTrip_returns_dispatch_result
              (collaborators := Journal.collaborators)
              (Journal.transport DumpHeaders
                 (Journal.empty, Some "connection refused"%string))
              Demo.request [])
    as (res & w' & tr & w1 & w2 & before & after & Hrun & _).
  exists res, w', tr. split; [exact Hrun|].
  vm_compute in Hrun. injection Hrun as <- <- _. now split.
Defined.

(** C8, as stated, fails when no verbosity flag is set: the dispatch
    fails, its error is returned, and nothing at all is logged. *)
Lemma RoundTrip_failure_not_logged :
  exists res w' tr,
    Demo.run 0 (Demo.response, Some "connection refused"%string)
      Demo.request = Some (res, w', tr)
    /\ snd res = Some "connection refused"%string
    /\ logf_calls tr = []
    /\ w' = [].
Proof. eexists _, _, _. split; [vm_compute; reflexivity|]. now repeat split. Qed.

(** C1 on the code: with only [DumpHeaders] set ([DumpAuth] is clear),
    a successful dispatch and a successful dump of a response that
    carries an [X-Auth-Token] header, the block that is logged is the
    dump as [httputil.DumpResponse] returned it, token included; the
    output of [cleanAuths] on that dump, which masks the token, is not
    logged. *)
Theorem RoundTrip_response_logged_unredacted :
  let t := Demo.transport DumpHeaders (Demo.response, None) in
  let dumped := Demo.head Demo.response ++ [] in
  exists res w' tr redacted,
    Demo.run DumpHeaders (Demo.response, None) Demo.request
    = Some (res, w', tr)
    /\ Z.land (Options.Flags (opt t)) DumpAuth = 0
    /\ snd res = None
    /\ In (CallDumpResponse (fst res) false (inl dumped)) tr
    /\ cleanAuths t dumped = Some redacted
    /\ redacted = of_string "HTTP/1.1 200 OK" ++ Demo.CRLF
                  ++ of_string "X-Auth-Token: XXXX" ++ [LF] ++ Demo.CRLF
    /\ In (CallLogf "%s" [ArgString dumped]) tr
    /\ ~ In (CallLogf "%s" [ArgString redacted]) tr.
Proof.
  intros t dumped.
  eexists _, _, _, _. split; [vm_compute; reflexivity|].
  split; [reflexivity|]. split; [reflexivity|].
  split; [vm_compute; auto 12|].
  split; [vm_compute; reflexivity|].
  split; [reflexivity|].
  split; [vm_compute; auto 12|].
  intros H. vm_compute in H.
  repeat (destruct H as [H | H]; [discriminate H|]). exact H.
Qed.

(** ** The tables of the test suite, run on the model *)

(** [TestCleanAuth]. *)
Example TestCleanAuth :
  map (fun s => cleanAuth s (nth 0 Auth []))
    [ of_string "";
      of_string "floo";
      of_string "Authorization: ";
      of_string "Authorization: " ++ [LF];
      of_string "Authorization: A";
      of_string "Authorization: A" ++ [LF];
      of_string "Authorization: AAAA";
      of_string "Authorization: AAAA" ++ [LF];
      of_string "Authorization: AAAAA";
      of_string "Authorization: AAAAA" ++ [LF];
      of_string "Authorization: AAAAAAAAA" ++ [LF]
        ++ of_string "Potato: Help" ++ [LF];
      of_string "Sausage: 1" ++ [LF]
        ++ of_string "Authorization: AAAAAAAAA" ++ [LF]
        ++ of_string "Potato: Help" ++ [LF] ]
  = map Some
    [ of_string "";
      of_string "floo";
      of_string "Authorization: ";
      of_string "Authorization: " ++ [LF];
      of_string "Authorization: X";
      of_string "Authorization: X" ++ [LF];
      of_string "Authorization: XXXX";
      of_string "Authorization: XXXX" ++ [LF];
      of_string "Authorization: XXXX";
      of_string "Authorization: XXXX" ++ [LF];
      of_string "Authorization: XXXX" ++ [LF]
        ++ of_string "Potato: Help" ++ [LF];
      of_string "Sausage: 1" ++ [LF]
        ++ of_string "Authorization: XXXX" ++ [LF]
        ++ of_string "Potato: Help" ++ [LF] ].
Proof. vm_compute. reflexivity. Qed.

(** [TestCleanAuths]. *)
Example TestCleanAuths :
  map (cleanAuths_range Auth)
    [ of_string "";
      of_string "floo";
      of_string "Authorization: AAAAAAAAA" ++ [LF]
        ++ of_string "Potato: Help" ++ [LF];
      of_string "X-Auth-Token: AAAAAAAAA" ++ [LF]
        ++ of_string "Potato: Help" ++ [LF] ]
  = map Some
    [ of_string "";
      of_string "floo";
      of_string "Authorization: XXXX" ++ [LF]
        ++ of_string "Potato: Help" ++ [LF];
      of_string "X-Auth-Token: XXXX" ++ [LF]
        ++ of_string "Potato: Help" ++ [LF] ].
Proof. vm_compute. reflexivity. Qed.

(** [TestTransport]: the number of lines logged under each combination
    of flags of the table. *)
Example TestTransport_lines :
  map (fun flags =>
         match Demo.run flags (Demo.response, None) Demo.request with
         | Some (_, _, tr) => Some (length (logf_calls tr))
         | None => None
         end)
    [ 0; DumpHeaders; DumpBodies; DumpRequests; DumpResponses;
      Z.lor DumpResponses DumpAuth ]
  = map Some [0; 8; 8; 8; 8; 8]%nat.
Proof. vm_compute. reflexivity. Qed.

(** [TestTransport]: the request block under [DumpResponses] and under
    [DumpResponses|DumpAuth]. *)
Example TestTransport_request_block :
  map (fun flags =>
         match Demo.run flags (Demo.response, None) Demo.request with
         | Some (_, _, tr) => nth_error (logf_calls tr) 2
         | None => None
         end)
    [ DumpResponses; Z.lor DumpResponses DumpAuth ]
  = [ Some ("%s"%string,
            [ArgString (of_string "PUT / HTTP/1.1" ++ Demo.CRLF
                        ++ of_string "Authorization: XXXX" ++ [LF]
                        ++ Demo.CRLF)]);
      Some ("%s"%string,
            [ArgString (of_string "PUT / HTTP/1.1" ++ Demo.CRLF
                        ++ of_string "Authorization: POTATO" ++ Demo.CRLF
                        ++ Demo.CRLF)]) ].
Proof. vm_compute. reflexivity. Qed.

(** * Further properties *)

(** ** More on [cleanAuth] *)

Lemma value_len_from_LF (l : bytes) : value_len (from_LF l) = O.
Proof.
  induction l as [|c l IH]; simpl; [reflexivity|].
  destruct (Byte.eqb c LF) eqn:E; [|exact IH].
  simpl. now rewrite E.
Qed.

Lemma from_LF_from_LF (l : bytes) : from_LF (from_LF l) = from_LF l.
Proof.
  induction l as [|c l IH]; simpl; [reflexivity|].
  destruct (Byte.eqb c LF) eqn:E; [|exact IH].
  simpl. now rewrite E.
Qed.

Lemma value_len_mask (m : nat) (l : bytes) :
  value_len (repeat MASK m ++ l) = (m + value_len l)%nat.
Proof. induction m as [|m IH]; simpl; [reflexivity | now rewrite IH]. Qed.

Lemma skipn_mask (m : nat) (l : bytes) : skipn m (repeat MASK m ++ l) = l.
Proof. induction m as [|m IH]; simpl; [reflexivity | exact IH]. Qed.

Lemma value_len_no_LF (v : bytes) : ~ In LF v -> value_len v = length v.
Proof.
  induction v as [|c v IH]; intros Hv; simpl; [reflexivity|].
  destruct (Byte.eqb c LF) eqn:E.
  - apply Byte.byte_dec_bl in E. subst. exfalso. apply Hv. now left.
  - f_equal. apply IH. intros H. apply Hv. now right.
Qed.

Lemma from_LF_no_LF (v : bytes) : ~ In LF v -> from_LF v = [].
Proof.
  induction v as [|c v IH]; intros Hv; simpl; [reflexivity|].
  destruct (Byte.eqb c LF) eqn:E.
  - apply Byte.byte_dec_bl in E. subst. exfalso. apply Hv. now left.
  - apply IH. intros H. apply Hv. now right.
Qed.

(** An occurrence that starts before the end of [p] in [p ++ s ++ x]
    already lies in [p ++ s]. *)
Lemma occurs_before_end (p s x : bytes) (k : nat) :
  occurs_at (p ++ s ++ x) s k -> (k < length p)%nat ->
  occurs_at (p ++ s) s k.
Proof.
  intros (a & b & H & Hk) Hlt. subst k.
  exists a, (firstn (length p - length a) b). split; [|reflexivity].
  apply (f_equal (firstn (length p + length s))) in H.
  rewrite (app_assoc p s x), firstn_app in H.
  rewrite firstn_all2 in H by (rewrite length_app; lia).
  rewrite length_app in H.
  replace (length p + length s - (length p + length s))%nat with O in H
    by lia.
  simpl firstn in H. rewrite app_nil_r in H. rewrite H.
  rewrite firstn_app.
  rewrite (firstn_all2 (n := (length p + length s)%nat) a) by lia.
  f_equal. rewrite firstn_app.
  rewrite firstn_all2 by lia. f_equal. f_equal. lia.
Qed.

(** If the prefix does not occur in [pre ++ authBuf] before the end of
    [pre], the occurrence at the end of [pre] is the first one of every
    buffer that starts with [pre ++ authBuf]. *)
Lemma first_occurrence_extends (pre authBuf x : bytes) :
  (forall k, occurs_at (pre ++ authBuf) authBuf k -> (length pre <= k)%nat) ->
  forall k, occurs_at (pre ++ authBuf ++ x) authBuf k ->
            (length pre <= k)%nat.
Proof.
  intros H k Hk.
  destruct (Nat.lt_ge_cases k (length pre)) as [Hlt | Hge]; [|exact Hge].
  apply H. now apply occurs_before_end with (x := x).
Qed.

Lemma first_occurrence_restricts (pre authBuf x : bytes) :
  (forall k, occurs_at (pre ++ authBuf ++ x) authBuf k ->
             (length pre <= k)%nat) ->
  forall k, occurs_at (pre ++ authBuf) authBuf k -> (length pre <= k)%nat.
Proof.
  intros H k (a & b & Hab & Hk). apply H.
  exists a, (b ++ x). split; [|exact Hk].
  rewrite (app_assoc pre authBuf x), Hab. now rewrite <- !app_assoc.
Qed.

Lemma search_window_length (buf : bytes) :
  (length (search_window buf) <= 4096)%nat.
Proof. unfold search_window. rewrite length_firstn. lia. Qed.

(** What [Index_spec] finds in the window, said on the buffer. *)
Lemma window_match (buf authBuf : bytes) :
  Index (search_window buf) authBuf = -1
  \/ exists pre tail,
       buf = pre ++ authBuf ++ tail
       /\ Index (search_window buf) authBuf = len pre
       /\ (length pre + length authBuf <= 4096)%nat
       /\ (forall k, occurs_at (pre ++ authBuf) authBuf k ->
                     (length pre <= k)%nat).
Proof.
  destruct (Index_spec (search_window buf) authBuf)
    as [[Hi _] | (a & b & Hw & Hi & Hmin)]; [now left|].
  right.
  set (n := Z.to_nat (Z.min 4096 (len buf))).
  exists a, (b ++ skipn n buf).
  assert (Hbuf : buf = a ++ authBuf ++ b ++ skipn n buf).
  { rewrite <- (firstn_skipn n buf) at 1.
    unfold search_window in Hw. fold n in Hw. rewrite Hw.
    now rewrite <- !app_assoc. }
  split; [exact Hbuf|]. split; [exact Hi|]. split.
  - pose proof (search_window_length buf) as HL.
    rewrite Hw, !length_app in HL. lia.
  - intros k (a' & b' & Hab & Hk). subst k.
    apply (Hmin a' (b' ++ b)).
    rewrite Hw, (app_assoc a authBuf b), Hab. now rewrite <- !app_assoc.
Qed.

(** A second pass over the output finds the same occurrence, masks the
    mask and cuts nothing. *)
Lemma cleanAuth_twice (buf authBuf : bytes) :
  exists out,
    cleanAuth buf authBuf = Some out /\ cleanAuth out authBuf = Some out.
Proof.
  destruct (window_match buf authBuf)
    as [Hi | (pre & tail & Hb & Hi & Hwin & Hfirst)].
  - exists buf. split; now apply cleanAuth_not_found.
  - set (m := Nat.min 4 (value_len tail)).
    set (F := from_LF (skipn m tail)).
    exists (pre ++ authBuf ++ repeat MASK m ++ F).
    split.
    + rewrite Hb at 1. apply cleanAuth_found. now rewrite <- Hb.
    + rewrite cleanAuth_found.
      * rewrite value_len_mask. unfold F at 1 2.
        rewrite value_len_from_LF, Nat.add_0_r.
        replace (Nat.min 4 m) with m by (unfold m; lia).
        rewrite skipn_mask. unfold F. now rewrite from_LF_from_LF.
      * apply Index_first_in_window; [|exact Hwin].
        now apply first_occurrence_extends.
Qed.

Lemma line_feeds_app (a b : bytes) :
  line_feeds (a ++ b) = (line_feeds a + line_feeds b)%nat.
Proof. apply count_occ_app. Qed.

Lemma line_feeds_mask (m : nat) : line_feeds (repeat MASK m) = O.
Proof.
  induction m as [|m IH]; [reflexivity|].
  unfold line_feeds in *. simpl repeat.
  rewrite count_occ_cons_neq by discriminate. exact IH.
Qed.

Lemma line_feeds_from_LF (l : bytes) : line_feeds (from_LF l) = line_feeds l.
Proof.
  induction l as [|c l IH]; simpl; [reflexivity|].
  destruct (Byte.eqb c LF) eqn:E; [reflexivity|].
  rewrite IH. unfold line_feeds. symmetry.
  apply count_occ_cons_neq. now apply Byte.eqb_false.
Qed.

Lemma line_feeds_skipn_value (m : nat) : forall l : bytes,
  (m <= value_len l)%nat -> line_feeds (skipn m l) = line_feeds l.
Proof.
  induction m as [|m IH]; intros l Hm; [reflexivity|].
  destruct l as [|c l]; [reflexivity|]. simpl in Hm |- *.
  destruct (Byte.eqb c LF) eqn:E; [lia|].
  rewrite IH by lia. unfold line_feeds. symmetry.
  apply count_occ_cons_neq. now apply Byte.eqb_false.
Qed.

Lemma cleanAuth_line_feeds (buf authBuf out : bytes) :
  cleanAuth buf authBuf = Some out -> line_feeds out = line_feeds buf.
Proof.
  intros Hout.
  destruct (cleanAuth_cases buf authBuf) as [H | (pre & tail & Hb & H)].
  - congruence.
  - assert (E : out = pre ++ authBuf
                         ++ repeat MASK (Nat.min 4 (value_len tail))
                         ++ from_LF (skipn (Nat.min 4 (value_len tail)) tail))
      by congruence.
    rewrite E, Hb.
    rewrite !line_feeds_app, line_feeds_mask, line_feeds_from_LF.
    rewrite line_feeds_skipn_value by apply Nat.le_min_r. reflexivity.
Qed.

(** X2: [cleanAuth] keeps the framing of the message: for every buffer
    and prefix the output has as many line feeds as the input, so no line
    is joined to its neighbour and none is added. *)
Theorem cleanAuth_keeps_line_feeds (buf authBuf : bytes) :
  exists out,
    cleanAuth buf authBuf = Some out /\ line_feeds out = line_feeds buf.
Proof.
  destruct (cleanAuth_total buf authBuf) as (out & Hout & _).
  exists out. split; [exact Hout | now apply cleanAuth_line_feeds with authBuf].
Qed.

(** X3: when no line feed follows the matched prefix, the buffer is cut
    at the end of the mask: of a last header line without terminator only
    [min 4 (length v)] mask bytes remain after the prefix. *)
Theorem cleanAuth_truncates_unterminated_value (pre authBuf v : bytes) :
  ~ In LF v ->
  (forall k, occurs_at (pre ++ authBuf) authBuf k -> (length pre <= k)%nat) ->
  (length pre + length authBuf <= 4096)%nat ->
  cleanAuth (pre ++ authBuf ++ v) authBuf =
  Some (pre ++ authBuf ++ repeat MASK (Nat.min 4 (length v))).
Proof.
  intros Hv Hfirst Hwin.
  rewrite cleanAuth_found.
  - rewrite value_len_no_LF by exact Hv.
    rewrite from_LF_no_LF; [now rewrite app_nil_r|].
    intros Hin. apply Hv.
    rewrite <- (firstn_skipn (Nat.min 4 (length v)) v).
    apply in_or_app. now right.
  - apply Index_first_in_window; [|exact Hwin].
    now apply first_occurrence_extends.
Qed.

Lemma cleanAuth_truncates_unterminated_value_witness :
  cleanAuth (of_string "Host: h" ++ [LF] ++ of_string "Authorization: "
             ++ of_string "AAAAA") (of_string "Authorization: ")
  = Some (of_string "Host: h" ++ [LF] ++ of_string "Authorization: XXXX").
Proof.
  apply (cleanAuth_truncates_unterminated_value
           (of_string "Host: h" ++ [LF]) (of_string "Authorization: ")
           (of_string "AAAAA")).
  - no_line_feed.
  - first_occurrence 8.
  - vm_compute. lia.
Defined.

(** X4: the log does not depend on the secret.  Two buffers that differ
    only in the value after the matched prefix give the same output as
    soon as both values have 4 bytes or more (or the same length below
    4): nothing of the value but [min 4] of its length can be read off
    the output. *)
Theorem cleanAuth_hides_value (pre authBuf v1 v2 rest : bytes) :
  ~ In LF v1 -> ~ In LF v2 ->
  Nat.min 4 (length v1) = Nat.min 4 (length v2) ->
  (forall k, occurs_at (pre ++ authBuf) authBuf k -> (length pre <= k)%nat) ->
  (length pre + length authBuf <= 4096)%nat ->
  exists out,
    cleanAuth (pre ++ authBuf ++ v1 ++ LF :: rest) authBuf = Some out
    /\ cleanAuth (pre ++ authBuf ++ v2 ++ LF :: rest) authBuf = Some out.
Proof.
  intros Hv1 Hv2 Hmin Hfirst Hwin.
  exists (pre ++ authBuf ++ repeat MASK (Nat.min 4 (length v1))
              ++ LF :: rest).
  split.
  - apply cleanAuth_value; [exact Hv1 | | exact Hwin].
    now apply first_occurrence_extends.
  - rewrite Hmin.
    apply cleanAuth_value; [exact Hv2 | | exact Hwin].
    now apply first_occurrence_extends.
Qed.

Lemma cleanAuth_hides_value_witness :
  exists out,
    cleanAuth (of_string "Host: h" ++ [LF] ++ of_string "X-Auth-Token: "
               ++ of_string "hunter2" ++ LF :: [LF])
              (of_string "X-Auth-Token: ") = Some out
    /\ cleanAuth (of_string "Host: h" ++ [LF] ++ of_string "X-Auth-Token: "
                  ++ of_string "correct horse battery" ++ LF :: [LF])
                 (of_string "X-Auth-Token: ") = Some out.
Proof.
  destruct (cleanAuth_hides_value
              (of_string "Host: h" ++ [LF]) (of_string "X-Auth-Token: ")
              (of_string "hunter2") (of_string "correct horse battery")
              [LF])
    as (out & H1 & H2).
  - no_line_feed.
  - no_line_feed.
  - reflexivity.
  - first_occurrence 8.
  - vm_compute. lia.
  - exists out. split.
    + rewrite <- H1. now rewrite <- app_assoc.
    + rewrite <- H2. now rewrite <- app_assoc.
Defined.

Lemma cleanAuth_fixed_point (buf authBuf out : bytes) :
  cleanAuth buf authBuf = Some out -> cleanAuth out authBuf = Some out.
Proof.
  intros H. destruct (cleanAuth_twice buf authBuf) as (o & H1 & H2).
  congruence.
Qed.

(** X1: [cleanAuth] is idempotent: for every buffer and prefix it returns
    normally, and run again on its own output with the same prefix it
    returns that output. *)
Theorem cleanAuth_idempotent (buf authBuf : bytes) :
  exists out,
    cleanAuth buf authBuf = Some out /\ cleanAuth out authBuf = Some out.
Proof. apply cleanAuth_twice. Qed.

Lemma cleanAuths_range_repeat (a : bytes) (n : nat) (buf : bytes) :
  cleanAuths_range (repeat a (S n)) buf = cleanAuth buf a.
Proof.
  simpl. destruct (cleanAuth buf a) as [out|] eqn:H; [|reflexivity].
  apply cleanAuth_fixed_point in H.
  induction n as [|n IH]; simpl; [reflexivity|]. now rewrite H.
Qed.

(** X5: listing the same prefix several times in [Auth] changes nothing:
    after the first pass the later passes find the masked header again
    and leave the buffer as it is. *)
Theorem cleanAuths_repeated_prefix
    (Request Error World HttpTransport : Type)
    (h : HttpTransport) (flags : Z)
    (logf : string -> list (Arg Request Error) -> World -> World)
    (a : bytes) (n : nat) (buf : bytes) :
  cleanAuths (mkTransport h (Options.mk flags logf (repeat a (S n)))) buf
  = cleanAuth buf a.
Proof. apply cleanAuths_range_repeat. Qed.

(** X6: only the first header with a given prefix is masked, however
    often the prefix is passed: when a second header with the same prefix
    follows on a later line, its value [v2] is still in the output. *)
Theorem cleanAuths_second_header_survives
    (pre authBuf v mid v2 rest : bytes) (n : nat) :
  ~ In LF v ->
  (forall k, occurs_at (pre ++ authBuf) authBuf k -> (length pre <= k)%nat) ->
  (length pre + length authBuf <= 4096)%nat ->
  cleanAuths_range (repeat authBuf (S n))
    (pre ++ authBuf ++ v ++ LF :: mid ++ authBuf ++ v2 ++ LF :: rest)
  = Some (pre ++ authBuf ++ repeat MASK (Nat.min 4 (length v))
              ++ LF :: mid ++ authBuf ++ v2 ++ LF :: rest).
Proof.
  intros Hv Hfirst Hwin. rewrite cleanAuths_range_repeat.
  apply cleanAuth_value; [exact Hv | | exact Hwin].
  now apply first_occurrence_extends.
Qed.

Lemma cleanAuths_second_header_survives_witness :
  cleanAuths_range [of_string "Authorization: "; of_string "Authorization: "]
    (of_string "Authorization: first" ++ LF
       :: of_string "Host: h" ++ [LF]
       ++ of_string "Authorization: second" ++ LF :: [LF])
  = Some (of_string "Authorization: XXXX" ++ LF
            :: of_string "Host: h" ++ [LF]
            ++ of_string "Authorization: second" ++ LF :: [LF]).
Proof.
  apply (cleanAuths_second_header_survives
           [] (of_string "Authorization: ") (of_string "first")
           (of_string "Host: h" ++ [LF]) (of_string "second") [LF] 1).
  - no_line_feed.
  - intros k _. simpl. lia.
  - vm_compute. lia.
Defined.

(** X7: the search window ends at byte 4096 exactly: a first occurrence
    of the prefix that starts inside the window but ends after it is not
    found, and the buffer is returned unchanged. *)
Theorem cleanAuth_prefix_across_window (pre authBuf tail : bytes) :
  (forall k, occurs_at (pre ++ authBuf ++ tail) authBuf k ->
             (length pre <= k)%nat) ->
  (4096 < length pre + length authBuf)%nat ->
  cleanAuth (pre ++ authBuf ++ tail) authBuf = Some (pre ++ authBuf ++ tail).
Proof.
  intros Hfirst Hout. apply cleanAuth_not_found.
  destruct (Index_spec (search_window (pre ++ authBuf ++ tail)) authBuf)
    as [[Hi _] | (a & b & Hw & _)]; [exact Hi|].
  exfalso.
  assert (Ha : (length pre <= length a)%nat).
  { apply Hfirst. apply occurs_in_window. now exists a, b. }
  pose proof (search_window_length (pre ++ authBuf ++ tail)) as HL.
  rewrite Hw, !length_app in HL. lia.
Qed.

Lemma cleanAuth_prefix_across_window_witness :
  let buf := repeat x61 4090 ++ of_string "Authorization: "
             ++ of_string "SECRET" ++ [LF] in
  cleanAuth buf (of_string "Authorization: ") = Some buf.
Proof.
  intros buf.
  apply (cleanAuth_prefix_across_window
           (repeat x61 4090) (of_string "Authorization: ")
           (of_string "SECRET" ++ [LF])).
  - intros k (a & b & H & Hk). subst k.
    destruct (Nat.lt_ge_cases (length a) (length (repeat x61 4090)))
      as [Hlt | Hge]; [exfalso | exact Hge].
    assert (E : nth_error (a ++ of_string "Authorization: " ++ b) (length a)
                = Some x41).
    { rewrite nth_error_app2 by lia. now rewrite Nat.sub_diag. }
    rewrite <- H, nth_error_app1 in E by exact Hlt.
    apply nth_error_In, repeat_spec in E. discriminate E.
  - rewrite repeat_length. vm_compute. lia.
Defined.

(** X8: an empty prefix in [Auth] matches at the very start of the
    buffer: the first line of the dump (the request line or the status
    line) is replaced by a mask of at most 4 bytes. *)
Theorem cleanAuth_empty_prefix (line rest : bytes) :
  ~ In LF line ->
  cleanAuth (line ++ LF :: rest) [] =
  Some (repeat MASK (Nat.min 4 (length line)) ++ LF :: rest).
Proof.
  intros Hline.
  apply (cleanAuth_value [] [] line rest Hline).
  - intros k _. simpl. lia.
  - simpl. lia.
Qed.

Lemma cleanAuth_empty_prefix_witness :
  cleanAuth (of_string "PUT / HTTP/1.1" ++ LF :: of_string "Host: h" ++ [LF])
            []
  = Some (of_string "XXXX" ++ LF :: of_string "Host: h" ++ [LF]).
Proof.
  apply (cleanAuth_empty_prefix (of_string "PUT / HTTP/1.1")).
  no_line_feed.
Defined.

Lemma cleanAuth_absent (buf authBuf : bytes) :
  (forall k, ~ occurs_at buf authBuf k) -> cleanAuth buf authBuf = Some buf.
Proof.
  intros Hno. apply cleanAuth_not_found.
  destruct (window_match buf authBuf)
    as [Hi | (pre & tail & Hb & _)]; [exact Hi|].
  exfalso. apply (Hno (length pre)). now exists pre, tail.
Qed.

(** ** More on [cleanAuths] *)

Section MoreCleanAuths.

Context {Request Error World HttpTransport : Type}.
Implicit Type t : @Transport Request Error World HttpTransport.

(** X9: [cleanAuths] returns normally for every list of prefixes and
    every buffer; its output is never longer than the input and has as
    many line feeds. *)
Theorem cleanAuths_safe t (buf : bytes) :
  exists out,
    cleanAuths t buf = Some out
    /\ (length out <= length buf)%nat
    /\ line_feeds out = line_feeds buf.
Proof.
  unfold cleanAuths. generalize (Options.Auth (opt t)). intros auths.
  revert buf. induction auths as [|a auths IH]; intros buf; simpl.
  - exists buf. repeat split. lia.
  - destruct (cleanAuth_total buf a) as (mid & Hmid & Hlen).
    rewrite Hmid.
    destruct (IH mid) as (out & Hout & Hlen' & Hlf).
    exists out. split; [exact Hout|]. split; [lia|].
    rewrite Hlf. now apply cleanAuth_line_feeds with a.
Qed.

(** X10: a buffer in which none of the configured prefixes occurs comes
    back unchanged. *)
Theorem cleanAuths_without_headers t (buf : bytes) :
  (forall a k, In a (Options.Auth (opt t)) -> ~ occurs_at buf a k) ->
  cleanAuths t buf = Some buf.
Proof.
  unfold cleanAuths. generalize (Options.Auth (opt t)). intros auths.
  induction auths as [|a auths IH]; intros Hno; simpl; [reflexivity|].
  rewrite cleanAuth_absent by (intros k; apply Hno; now left).
  apply IH. intros a' k Hin. apply Hno. now right.
Qed.

End MoreCleanAuths.

Lemma cleanAuths_without_headers_witness :
  cleanAuths (Demo.transport DumpHeaders (Demo.response, None))
             (of_string "GET / HTTP/1.1" ++ LF :: of_string "Host: h" ++ [LF])
  = Some (of_string "GET / HTTP/1.1" ++ LF :: of_string "Host: h" ++ [LF]).
Proof.
  apply (cleanAuths_without_headers
           (Demo.transport DumpHeaders (Demo.response, None))).
  intros a k Hin (x & y & H & _).
  assert (Hc : exists c, (c = x41 \/ c = x58)
                         /\ In c (of_string "GET / HTTP/1.1" ++ LF
                                    :: of_string "Host: h" ++ [LF])).
  { rewrite H. destruct Hin as [<- | [<- | []]].
    - exists x41. split; [now left|].
      apply in_or_app. right. apply in_or_app. left. now left.
    - exists x58. split; [now right|].
      apply in_or_app. right. apply in_or_app. left. now left. }
  destruct Hc as (c & Hc & Hin').
  vm_compute in Hin'.
  repeat (destruct Hin' as [Hin' | Hin'];
          [subst c; destruct Hc as [Hc | Hc]; discriminate Hc|]).
  exact Hin'.
Defined.

(** ** More on [RoundTrip] *)

(** Runs through a membership in an explicit trace and discards the
    entries that are calls of another kind. *)
Ltac no_such_call H :=
  simpl in H;
  repeat (destruct H as [H | H]; [try discriminate H|]);
  try contradiction.

Section MoreRuns.

Context {Request Response Error World HttpTransport : Type}.
Context {collaborators :
           Collaborators Request Response Error World HttpTransport}.
Implicit Type t : @Transport Request Error World HttpTransport.

Local Notation "'ALL'" :=
  (Z.lor (Z.lor (Z.lor (Z.lor DumpHeaders DumpBodies) DumpAuth)
            DumpRequests) DumpResponses).

(** Every run of [RoundTrip], taken apart. *)
Lemma RoundTrip_shape t (req : Request) (w : World) res w' tr :
  let flags := Options.Flags (opt t) in
  RoundTrip t req w = Some (res, w', tr) ->
  exists w1 w2 tr1 tr2,
    tr = tr1 ++ CallRoundTrip req res :: tr2
    /\ http_RoundTrip (Transport_ t) req w1 = (res, w2)
    /\ (flags_and_ne0 flags ALL = false ->
        tr1 = [] /\ tr2 = [] /\ w1 = w /\ w' = w2)
    /\ (flags_and_ne0 flags ALL = true ->
        (exists d block,
            tr1 = [ CallLogf "%s" [ArgString SeparatorReq];
                    CallLogf "%s (req %p)"
                      [ArgString (of_string "HTTP REQUEST"); ArgPointer req];
                    CallDumpRequestOut req
                      (flags_and_ne0 flags (Z.lor DumpBodies DumpRequests)) d;
                    CallLogf (fst block) (snd block);
                    CallLogf "%s" [ArgString SeparatorReq] ]
            /\ match d with
               | inr derr =>
                   block = ("Dump request failed: %v"%string,
                            [ArgError derr])
               | inl buf =>
                   exists out,
                     block = ("%s"%string, [ArgString out])
                     /\ (if Z.land flags DumpAuth =? 0
                         then cleanAuths t buf = Some out else out = buf)
               end)
        /\ match snd res with
           | Some e =>
               tr2 = [ CallLogf "%s" [ArgString SeparatorResp];
                       CallLogf "%s (req %p)"
                         [ArgString (of_string "HTTP RESPONSE");
                          ArgPointer req];
                       CallLogf "HTTP request failed: %v" [ArgError e];
                       CallLogf "%s" [ArgString SeparatorResp] ]
           | None =>
               exists d,
                 tr2 = [ CallLogf "%s" [ArgString SeparatorResp];
                         CallLogf "%s (req %p)"
                           [ArgString (of_string "HTTP RESPONSE");
                            ArgPointer req];
                         CallDumpResponse (fst res)
                           (flags_and_ne0 flags
                              (Z.lor DumpBodies DumpResponses)) d;
                         match d with
                         | inl buf => CallLogf "%s" [ArgString buf]
                         | inr derr =>
                             CallLogf "Dump response failed: %v"
                               [ArgError derr]
                         end;
                         CallLogf "%s" [ArgString SeparatorResp] ]
           end).
Proof.
  intros flags Hrun.
  destruct (RoundTrip_run t req w)
    as (w1 & tr1 & res0 & w2 & w3 & tr2 & H1 & H2 & H3 & HR).
  rewrite Hrun in HR. injection HR as -> -> ->.
  destruct (log_request_run t req w) as (w1' & tr1' & H1' & Hoff1 & Hon1).
  destruct (log_response_run t req (fst res0) (snd res0) w2)
    as (w3' & tr2' & H3' & Hoff2 & Hon2).
  rewrite H1 in H1'. injection H1' as <- <-.
  rewrite H3 in H3'. injection H3' as <- <-.
  exists w1, w2, tr1, tr2.
  split; [reflexivity|]. split; [exact H2|]. split.
  - intros E. destruct (Hoff1 E) as [-> ->]. destruct (Hoff2 E) as [-> ->].
    now repeat split.
  - intros E. split; [exact (Hon1 E) | exact (Hon2 E)].
Qed.

(** X11: the frame of the log is the same for every round trip, and the
    trace is true to the calls made (made again from [w], the calls of
    [tr] return what [tr] records and leave the world [w']).  With
    logging enabled the logging function is called exactly 8 times,
    whatever fails on the way (a dump, the dispatch): separator, request
    banner, one block, separator, separator, response banner, one block,
    separator.  With logging disabled it is not called. *)
Theorem RoundTrip_log_frame t (req : Request) (w : World) :
  exists res w' tr,
    RoundTrip t req w = Some (res, w', tr)
    /\ replay t tr w = (tr, w')
    /\ (~ logging_enabled (Options.Flags (opt t)) -> logf_calls tr = [])
    /\ (logging_enabled (Options.Flags (opt t)) ->
        exists reqblock respblock,
          logf_calls tr =
          [ ("%s"%string, [ArgString SeparatorReq]);
            ("%s (req %p)"%string,
             [ArgString (of_string "HTTP REQUEST"); ArgPointer req]);
            reqblock;
            ("%s"%string, [ArgString SeparatorReq]);
            ("%s"%string, [ArgString SeparatorResp]);
            ("%s (req %p)"%string,
             [ArgString (of_string "HTTP RESPONSE"); ArgPointer req]);
            respblock;
            ("%s"%string, [ArgString SeparatorResp]) ]).
Proof.
  destruct (RoundTrip_run t req w)
    as (w1 & tr1 & res & w2 & w3 & tr2 & _ & _ & _ & HR).
  exists res, w3, (tr1 ++ CallRoundTrip req res :: tr2).
  split; [exact HR|].
  split; [exact (RoundTrip_replays t req _ _ _ _ HR)|].
  destruct (RoundTrip_shape t req w _ _ _ HR)
    as (v1 & v2 & s1 & s2 & Htr & _ & Hoff & Hon).
  rewrite Htr. rewrite <- flags_and_ne0_any.
  destruct (flags_and_ne0 (Options.Flags (opt t)) ALL).
  - split; [intros H; now destruct H|]. intros _.
    destruct (Hon eq_refl) as [(d & block & -> & _) Hresp].
    exists block. destruct block as [f a].
    destruct (snd res) as [e|].
    + rewrite Hresp. eexists. reflexivity.
    + destruct Hresp as (d' & ->). destruct d'; eexists; reflexivity.
  - destruct (Hoff eq_refl) as (-> & -> & _).
    split; [reflexivity | discriminate].
Qed.

(** X12: a request that cannot be dumped does not abort the round trip
    (the trace is true to the calls made, as in X11).
    The error of [DumpRequestOut] is logged in place of the dump, the
    request is dispatched all the same right after the closing separator,
    and what the caller gets is the result of the dispatch, not that
    error. *)
Theorem RoundTrip_dump_request_failure t (req : Request) (w : World)
    res w' tr r body derr :
  RoundTrip t req w = Some (res, w', tr) ->
  In (CallDumpRequestOut r body (inr derr)) tr ->
  replay t tr w = (tr, w')
  /\ r = req
  /\ exists after,
       tr = [ CallLogf "%s" [ArgString SeparatorReq];
              CallLogf "%s (req %p)"
                [ArgString (of_string "HTTP REQUEST"); ArgPointer req];
              CallDumpRequestOut req body (inr derr);
              CallLogf "Dump request failed: %v" [ArgError derr];
              CallLogf "%s" [ArgString SeparatorReq];
              CallRoundTrip req res ] ++ after.
Proof.
  intros Hrun Hin.
  split; [exact (RoundTrip_replays t req _ _ _ _ Hrun)|].
  destruct (RoundTrip_shape t req w _ _ _ Hrun)
    as (w1 & w2 & tr1 & tr2 & Htr & _ & Hoff & Hon).
  destruct (flags_and_ne0 (Options.Flags (opt t)) ALL).
  - destruct (Hon eq_refl) as [(d & block & Htr1 & Hblock) Hresp].
    subst tr tr1.
    apply in_app_or in Hin as [Hin | [Hin | Hin]].
    + no_such_call Hin. injection Hin as <- <- ->.
      cbv beta iota in Hblock. subst block.
      split; [reflexivity|]. now exists tr2.
    + discriminate Hin.
    + exfalso. destruct (snd res).
      * subst tr2. no_such_call Hin.
      * destruct Hresp as (d' & ->). no_such_call Hin.
        destruct d'; discriminate Hin.
  - destruct (Hoff eq_refl) as (-> & -> & _). subst tr.
    exfalso. no_such_call Hin.
Qed.

(** X13: a response that cannot be dumped is still handed to the caller
    (the trace is true to the calls made, as in X11).
    The error of [DumpResponse] is logged in place of the dump, between
    the response banner and the closing separator, and the caller gets
    the response of the dispatch with a nil error. *)
Theorem RoundTrip_dump_response_failure t (req : Request) (w : World)
    res w' tr r body derr :
  RoundTrip t req w = Some (res, w', tr) ->
  In (CallDumpResponse r body (inr derr)) tr ->
  replay t tr w = (tr, w')
  /\ r = fst res /\ snd res = None
  /\ exists before,
       tr = before
            ++ [ CallRoundTrip req res;
                 CallLogf "%s" [ArgString SeparatorResp];
                 CallLogf "%s (req %p)"
                   [ArgString (of_string "HTTP RESPONSE"); ArgPointer req];
                 CallDumpResponse (fst res) body (inr derr);
                 CallLogf "Dump response failed: %v" [ArgError derr];
                 CallLogf "%s" [ArgString SeparatorResp] ].
Proof.
  intros Hrun Hin.
  split; [exact (RoundTrip_replays t req _ _ _ _ Hrun)|].
  destruct (RoundTrip_shape t req w _ _ _ Hrun)
    as (w1 & w2 & tr1 & tr2 & Htr & _ & Hoff & Hon).
  destruct (flags_and_ne0 (Options.Flags (opt t)) ALL).
  - destruct (Hon eq_refl) as [(d & block & Htr1 & Hblock) Hresp].
    subst tr tr1.
    apply in_app_or in Hin as [Hin | [Hin | Hin]].
    + exfalso. no_such_call Hin.
    + discriminate Hin.
    + destruct (snd res).
      * exfalso. subst tr2. no_such_call Hin.
      * destruct Hresp as (d' & ->). no_such_call Hin.
        -- injection Hin as <- <- ->.
           split; [reflexivity|]. split; [reflexivity|]. eexists.
           reflexivity.
        -- exfalso. destruct d'; discriminate Hin.
  - destruct (Hoff eq_refl) as (-> & -> & _). subst tr.
    exfalso. no_such_call Hin.
Qed.

(** The third line logged, when the request is dumped. *)
Lemma request_block_logged t (req : Request) (w : World)
    res w' tr r body buf :
  RoundTrip t req w = Some (res, w', tr) ->
  In (CallDumpRequestOut r body (inl buf)) tr ->
  exists block,
    nth_error (logf_calls tr) 2 = Some ("%s"%string, [ArgString block])
    /\ (flag_set (Options.Flags (opt t)) DumpAuth -> block = buf)
    /\ (~ flag_set (Options.Flags (opt t)) DumpAuth ->
        cleanAuths t buf = Some block).
Proof.
  intros Hrun Hin.
  destruct (RoundTrip_shape t req w _ _ _ Hrun)
    as (w1 & w2 & tr1 & tr2 & Htr & _ & Hoff & Hon).
  destruct (flags_and_ne0 (Options.Flags (opt t)) ALL).
  - destruct (Hon eq_refl) as [(d & block & Htr1 & Hblock) Hresp].
    subst tr tr1.
    apply in_app_or in Hin as [Hin | [Hin | Hin]].
    + no_such_call Hin. injection Hin as _ _ ->.
      destruct Hblock as (out & -> & Hout).
      exists out. split; [reflexivity|].
      unfold flag_set.
      destruct (Z.land (Options.Flags (opt t)) DumpAuth =? 0) eqn:A.
      * apply Z.eqb_eq in A. split; [intros H; now destruct H|].
        intros _. exact Hout.
      * apply Z.eqb_neq in A. split; [intros _; exact Hout|].
        intros H. now destruct H.
    + discriminate Hin.
    + exfalso. destruct (snd res).
      * subst tr2. no_such_call Hin.
      * destruct Hresp as (d' & ->). no_such_call Hin.
        destruct d'; discriminate Hin.
  - destruct (Hoff eq_refl) as (-> & -> & _). subst tr.
    exfalso. no_such_call Hin.
Qed.

(** X14: the request block is redacted exactly when [DumpAuth] is clear.
    When the request is dumped, the third line logged is the dump itself
    if [DumpAuth] is set, and the output of [cleanAuths] on the dump if
    it is not.  The trace is true to the calls made: the dump recorded
    is what [DumpRequestOut] returned, and the lines recorded are the
    applications of the configured logging function, in order. *)
Theorem RoundTrip_request_redaction t (req : Request) (w : World)
    res w' tr r body buf :
  RoundTrip t req w = Some (res, w', tr) ->
  In (CallDumpRequestOut r body (inl buf)) tr ->
  replay t tr w = (tr, w')
  /\ exists block,
       nth_error (logf_calls tr) 2 = Some ("%s"%string, [ArgString block])
       /\ (flag_set (Options.Flags (opt t)) DumpAuth -> block = buf)
       /\ (~ flag_set (Options.Flags (opt t)) DumpAuth ->
           cleanAuths t buf = Some block).
Proof.
  intros Hrun Hin.
  split; [exact (RoundTrip_replays t req _ _ _ _ Hrun)|].
  exact (request_block_logged t req w res w' tr r body buf Hrun Hin).
Qed.

(** With logging disabled [RoundTrip] is the wrapped round trip. *)
Lemma RoundTrip_disabled t (req : Request) (w : World) :
  ~ logging_enabled (Options.Flags (opt t)) ->
  RoundTrip t req w =
  Some (fst (http_RoundTrip (Transport_ t) req w),
        snd (http_RoundTrip (Transport_ t) req w),
        [CallRoundTrip req (fst (http_RoundTrip (Transport_ t) req w))]).
Proof.
  intros Hoff.
  destruct (RoundTrip_run t req w)
    as (w1 & tr1 & res & w2 & w3 & tr2 & _ & _ & _ & HR).
  destruct (RoundTrip_shape t req w _ _ _ HR)
    as (v1 & v2 & s1 & s2 & Htr & Hdisp & Hno & _).
  rewrite <- flags_and_ne0_any in Hoff.
  apply not_true_is_false in Hoff.
  destruct (Hno Hoff) as (-> & -> & -> & ->).
  rewrite HR, Htr, Hdisp. reflexivity.
Qed.


End MoreRuns.

Lemma RoundTrip_log_frame_witness :
  exists res w' tr,
    Journal.run DumpBodies (Demo.response, None) Demo.request
    = Some (res, w', tr)
    /\ w' = Journal.success Demo.request Demo.response true true
              (Journal.redacted_request ++ Demo.body Demo.request)
              (Demo.head Demo.response ++ Demo.body Demo.response)
    /\ length (logf_calls tr) = 8%nat.
Proof.
  destruct (RoundTrip_log_frame
              (collaborators := Journal.collaborators)
              (Journal.transport DumpBodies (Demo.response, None))
              Demo.request [])
    as (res & w' & tr & Hrun & _ & _ & Hon).
  exists res, w', tr. split; [exact Hrun|].
  destruct Hon as (reqblock & respblock & Hlines).
  { right. left. vm_compute. discriminate. }
  split; [|now rewrite Hlines].
  vm_compute in Hrun. now injection Hrun as _ <- _.
Defined.

Lemma RoundTrip_dump_request_failure_witness :
  exists res w' tr,
    Journal.run DumpBodies (Demo.response, None) Journal.empty
    = Some (res, w', tr)
    /\ res = (Demo.response, None)
    /\ w' = [ Journal.Printed "%s" [ArgString SeparatorReq];
              Journal.Printed "%s (req %p)"
                [ArgString (of_string "HTTP REQUEST");
                 ArgPointer Journal.empty];
              Journal.DumpedRequest Journal.empty true;
              Journal.Printed "Dump request failed: %v"
                [ArgError "no head"%string];
              Journal.Printed "%s" [ArgString SeparatorReq];
              Journal.Dispatched Journal.empty;
              Journal.Printed "%s" [ArgString SeparatorResp];
              Journal.Printed "%s (req %p)"
                [ArgString (of_string "HTTP RESPONSE");
                 ArgPointer Journal.empty];
              Journal.DumpedResponse Demo.response true;
              Journal.Printed "%s"
                [ArgString
                   (Demo.head Demo.response ++ Demo.body Demo.response)];
              Journal.Printed "%s" [ArgString SeparatorResp] ]
    /\ replay (collaborators := Journal.collaborators)
         (Journal.transport DumpBodies (Demo.response, None)) tr []
       = (tr, w')
    /\ Journal.empty = Journal.empty
    /\ exists after,
         tr = [ CallLogf "%s" [ArgString SeparatorReq];
                CallLogf "%s (req %p)"
                  [ArgString (of_string "HTTP REQUEST");
                   ArgPointer Journal.empty];
                CallDumpRequestOut Journal.empty true (inr "no head"%string);
                CallLogf "Dump request failed: %v"
                  [ArgError "no head"%string];
                CallLogf "%s" [ArgString SeparatorReq];
                CallRoundTrip Journal.empty res ] ++ after.
Proof.
  eexists _, _, _. split; [vm_compute; reflexivity|].
  split; [reflexivity|]. split; [reflexivity|].
  eapply (RoundTrip_dump_request_failure
            (collaborators := Journal.collaborators)
            (Journal.transport DumpBodies (Demo.response, None))
            Journal.empty []).
  - vm_compute. reflexivity.
  - vm_compute. auto.
Defined.

Lemma RoundTrip_dump_response_failure_witness :
  exists res w' tr,
    Journal.run DumpHeaders (Journal.empty, None) Demo.request
    = Some (res, w', tr)
    /\ w' = [ Journal.Printed "%s" [ArgString SeparatorReq];
              Journal.Printed "%s (req %p)"
                [ArgString (of_string "HTTP REQUEST");
                 ArgPointer Demo.request];
              Journal.DumpedRequest Demo.request false;
              Journal.Printed "%s" [ArgString Journal.redacted_request];
              Journal.Printed "%s" [ArgString SeparatorReq];
              Journal.Dispatched Demo.request;
              Journal.Printed "%s" [ArgString SeparatorResp];
              Journal.Printed "%s (req %p)"
                [ArgString (of_string "HTTP RESPONSE");
                 ArgPointer Demo.request];
              Journal.DumpedResponse Journal.empty false;
              Journal.Printed "Dump response failed: %v"
                [ArgError "no head"%string];
              Journal.Printed "%s" [ArgString SeparatorResp] ]
    /\ replay (collaborators := Journal.collaborators)
         (Journal.transport DumpHeaders (Journal.empty, None)) tr []
       = (tr, w')
    /\ Journal.empty = fst res /\ snd res = None
    /\ exists before,
         tr = before
              ++ [ CallRoundTrip Demo.request res;
                   CallLogf "%s" [ArgString SeparatorResp];
                   CallLogf "%s (req %p)"
                     [ArgString (of_string "HTTP RESPONSE");
                      ArgPointer Demo.request];
                   CallDumpResponse (fst res) false (inr "no head"%string);
                   CallLogf "Dump response failed: %v"
                     [ArgError "no head"%string];
                   CallLogf "%s" [ArgString SeparatorResp] ].
Proof.
  eexists _, _, _. split; [vm_compute; reflexivity|].
  split; [reflexivity|].
  eapply (RoundTrip_dump_response_failure
            (collaborators := Journal.collaborators)
            (Journal.transport DumpHeaders (Journal.empty, None))
            Demo.request []).
  - vm_compute. reflexivity.
  - vm_compute. auto 12.
Defined.

Lemma RoundTrip_request_redaction_witness :
  exists res w' tr,
    Journal.run (Z.lor DumpHeaders DumpAuth) (Demo.response, None)
      Demo.request = Some (res, w', tr)
    /\ w' = Journal.success Demo.request Demo.response false false
              (Demo.head Demo.request) (Demo.head Demo.response)
    /\ replay (collaborators := Journal.collaborators)
         (Journal.transport (Z.lor DumpHeaders DumpAuth)
            (Demo.response, None)) tr []
       = (tr, w')
    /\ exists block,
         nth_error (logf_calls tr) 2 = Some ("%s"%string, [ArgString block])
         /\ (flag_set (Z.lor DumpHeaders DumpAuth) DumpAuth ->
             block = Demo.head Demo.request)
         /\ (~ flag_set (Z.lor DumpHeaders DumpAuth) DumpAuth ->
             cleanAuths
               (Journal.transport (Z.lor DumpHeaders DumpAuth)
                  (Demo.response, None))
               (Demo.head Demo.request) = Some block).
Proof.
  eexists _, _, _. split; [vm_compute; reflexivity|].
  split; [reflexivity|].
  eapply (RoundTrip_request_redaction
            (collaborators := Journal.collaborators)
            (Journal.transport (Z.lor DumpHeaders DumpAuth)
               (Demo.response, None))
            Demo.request []).
  - vm_compute. reflexivity.
  - vm_compute. auto.
Defined.


(** ** [New] *)

Section MoreConstruction.

Context {Request Response Error World HttpTransport : Type}.
Context {collaborators :
           Collaborators Request Response Error World HttpTransport}.
Variable log_Printf : string -> list (Arg Request Error) -> World -> World.

(** X16: [New] does not default the flags.  Options given with none of
    the five flags set (the zero value of [Flags] in particular) build a
    transport that logs nothing, whatever [Logf] and [Auth] are: its
    [RoundTrip] makes the one call to the wrapped transport and returns
    its result. *)
Theorem New_without_flags_is_silent
    (o : GivenOptions.t Request Error World) (h : HttpTransport)
    (req : Request) (w : World) :
  ~ logging_enabled (GivenOptions.Flags o) ->
  RoundTrip (New log_Printf (Some o) h) req w =
  Some (fst (http_RoundTrip h req w), snd (http_RoundTrip h req w),
        [CallRoundTrip req (fst (http_RoundTrip h req w))]).
Proof.
  intros Hoff.
  apply (RoundTrip_disabled (New log_Printf (Some o) h) req w). exact Hoff.
Qed.

(** X17: for [New] a nil [Auth] and an empty [Auth] are not the same.
    Options given with an empty, non-nil list of prefixes build a
    transport that redacts nothing: the request is logged as it was
    dumped, also when [DumpAuth] is clear.  The trace is true to the
    calls made, as in X14. *)
Theorem New_empty_Auth_redacts_nothing
    (o : GivenOptions.t Request Error World) (h : HttpTransport)
    (req : Request) (w : World) res w' tr r body buf :
  GivenOptions.Auth o = Some [] ->
  RoundTrip (New log_Printf (Some o) h) req w = Some (res, w', tr) ->
  In (CallDumpRequestOut r body (inl buf)) tr ->
  replay (New log_Printf (Some o) h) tr w = (tr, w')
  /\ nth_error (logf_calls tr) 2 = Some ("%s"%string, [ArgString buf]).
Proof.
  intros HA Hrun Hin.
  split; [exact (RoundTrip_replays _ req _ _ _ _ Hrun)|].
  destruct (request_block_logged _ _ _ _ _ _ _ _ _ Hrun Hin)
    as (block & Hblock & Hset & Hclear).
  assert (Hb : block = buf).
  { destruct (Z.eq_dec
                (Z.land (Options.Flags (opt (New log_Printf (Some o) h)))
                   DumpAuth) 0) as [E | E].
    - assert (Hc : cleanAuths (New log_Printf (Some o) h) buf = Some block)
        by (apply Hclear; intros H; now apply H).
      unfold cleanAuths, New in Hc. simpl in Hc. rewrite HA in Hc.
      simpl in Hc. congruence.
    - now apply Hset. }
  now rewrite Hblock, Hb.
Qed.

(** X18: when no options are given, or options whose [Auth] is nil, the
    transport built by [New] redacts with the default list [Auth]: with
    [DumpAuth] clear the request block logged is the dump after
    [cleanAuth] for ["Authorization: "] and then for ["X-Auth-Token: "].
    The trace is true to the calls made, as in X14. *)
Theorem New_nil_Auth_redacts_with_defaults
    (given : option (GivenOptions.t Request Error World))
    (h : HttpTransport) (req : Request) (w : World)
    res w' tr r body buf :
  given = None \/ (exists o, given = Some o /\ GivenOptions.Auth o = None) ->
  RoundTrip (New log_Printf given h) req w = Some (res, w', tr) ->
  In (CallDumpRequestOut r body (inl buf)) tr ->
  ~ flag_set (Options.Flags (opt (New log_Printf given h))) DumpAuth ->
  replay (New log_Printf given h) tr w = (tr, w')
  /\ exists mid block,
       cleanAuth buf (of_string "Authorization: ") = Some mid
       /\ cleanAuth mid (of_string "X-Auth-Token: ") = Some block
       /\ nth_error (logf_calls tr) 2
          = Some ("%s"%string, [ArgString block]).
Proof.
  intros Hgiven Hrun Hin Hclear.
  split; [exact (RoundTrip_replays _ req _ _ _ _ Hrun)|].
  destruct (request_block_logged _ _ _ _ _ _ _ _ _ Hrun Hin)
    as (block & Hblock & _ & Hc).
  specialize (Hc Hclear).
  assert (HA : Options.Auth (opt (New log_Printf given h)) = Auth).
  { destruct Hgiven as [-> | (o & -> & HA)]; [reflexivity|].
    unfold New. simpl. now rewrite HA. }
  unfold cleanAuths in Hc. rewrite HA in Hc.
  unfold Auth in Hc. simpl in Hc.
  destruct (cleanAuth buf (of_string "Authorization: ")) as [mid|] eqn:H1;
    [|discriminate Hc].
  destruct (cleanAuth mid (of_string "X-Auth-Token: ")) as [out|] eqn:H2;
    [|discriminate Hc].
  exists mid, block. split; [reflexivity|]. split; [congruence | exact Hblock].
Qed.

End MoreConstruction.

Lemma New_without_flags_is_silent_witness :
  RoundTrip (collaborators := Demo.collaborators)
    (New Demo.sink
       (Some (GivenOptions.mk 0 (Some Demo.sink) None))
       (Demo.response, @None string))
    Demo.request []
  = Some (Demo.response, None, [],
          [CallRoundTrip Demo.request (Demo.response, None)]).
Proof.
  apply (New_without_flags_is_silent
           (collaborators := Demo.collaborators) Demo.sink
           (GivenOptions.mk 0 (Some Demo.sink) None)
           (Demo.response, None) Demo.request []).
  intros H. repeat (destruct H as [H | H]; [now apply H|]). now apply H.
Defined.

Lemma New_empty_Auth_redacts_nothing_witness :
  exists res w' tr,
    RoundTrip (collaborators := Journal.collaborators)
      (New Journal.sink
         (Some (GivenOptions.mk DumpHeaders None (Some [])))
         (Demo.response, @None string))
      Demo.request [] = Some (res, w', tr)
    /\ w' = Journal.success Demo.request Demo.response false false
              (Demo.head Demo.request) (Demo.head Demo.response)
    /\ replay (collaborators := Journal.collaborators)
         (New Journal.sink
            (Some (GivenOptions.mk DumpHeaders None (Some [])))
            (Demo.response, @None string)) tr []
       = (tr, w')
    /\ nth_error (logf_calls tr) 2
       = Some ("%s"%string, [ArgString (Demo.head Demo.request)]).
Proof.
  eexists _, _, _. split; [vm_compute; reflexivity|].
  split; [reflexivity|].
  eapply (New_empty_Auth_redacts_nothing
            (collaborators := Journal.collaborators) Journal.sink
            (GivenOptions.mk DumpHeaders None (Some []))
            (Demo.response, None) Demo.request []).
  - reflexivity.
  - vm_compute. reflexivity.
  - vm_compute. auto.
Defined.

Lemma New_nil_Auth_redacts_with_defaults_witness :
  exists res w' tr,
    RoundTrip (collaborators := Journal.collaborators)
      (New Journal.sink None (Demo.response, @None string))
      Demo.request [] = Some (res, w', tr)
    /\ w' = Journal.success Demo.request Demo.response false false
              Journal.redacted_request (Demo.head Demo.response)
    /\ replay (collaborators := Journal.collaborators)
         (New Journal.sink None (Demo.response, @None string)) tr []
       = (tr, w')
    /\ exists mid block,
         cleanAuth (Demo.head Demo.request)
           (of_string "Authorization: ") = Some mid
         /\ cleanAuth mid (of_string "X-Auth-Token: ") = Some block
         /\ nth_error (logf_calls tr) 2
            = Some ("%s"%string, [ArgString block]).
Proof.
  eexists _, _, _. split; [vm_compute; reflexivity|].
  split; [reflexivity|].
  eapply (New_nil_Auth_redacts_with_defaults
            (collaborators := Journal.collaborators) Journal.sink
            None (Demo.response, None) Demo.request []).
  - now left.
  - vm_compute. reflexivity.
  - vm_compute. auto.
  - intros H. now apply H.
Defined.

(** ** [setDefaults] and [NewDefault] *)

Section MoreReflect.

Import Reflect.

Context {T V : Type}.
Variable assignable : T -> T -> bool.
Hypothesis assignable_refl : forall x, assignable x x = true.

(** Two structs of one struct type: field by field the same type and
    the same visibility. *)
Local Notation "'same_struct_type'" :=
  (Forall2 (fun fa fb : Field T V =>
              exported fa = exported fb /\ ftype fa = ftype fb)).

Local Notation "'copied'" :=
  (fun p : Field T V * Field T V =>
     if exported (fst p)
     then mkField (exported (fst p)) (ftype (fst p)) (fvalue (snd p))
     else fst p).

Lemma store_middle (done : Struct T V) (f g : Field T V) (todo : Struct T V) :
  store (length done) f (done ++ g :: todo) = done ++ f :: todo.
Proof. induction done as [|x done IH]; simpl; [reflexivity | now rewrite IH]. Qed.

Lemma Field_at_middle (done : Struct T V) (f : Field T V) (todo : Struct T V)
    (n : nat) :
  n = length done -> Field_at (done ++ f :: todo) n = Some f.
Proof.
  intros ->. unfold Field_at.
  rewrite nth_error_app2 by lia. now rewrite Nat.sub_diag.
Qed.

Lemma setDefaults_loop_same_type (todo btodo : Struct T V) :
  same_struct_type todo btodo ->
  forall done bdone : Struct T V,
    length done = length bdone ->
    setDefaults_loop assignable (length todo) (length done)
      (done ++ todo) (bdone ++ btodo)
    = Some (done ++ map copied (combine todo btodo)).
Proof.
  induction 1 as [|fa fb todo btodo [Hexp Hty] Hrest IH];
    intros done bdone Hlen.
  - reflexivity.
  - cbn [length setDefaults_loop].
    rewrite Field_at_middle by reflexivity.
    unfold CanSet. cbn [combine map fst snd].
    destruct (exported fa) eqn:Ea.
    + rewrite Field_at_middle by exact Hlen.
      unfold Set_value, CanSet.
      rewrite Ea, <- Hexp, Hty, assignable_refl. cbn [andb].
      rewrite store_middle.
      replace (S (length done))
        with (length (done ++ [mkField true (ftype fb) (fvalue fb)]))
        by (rewrite length_app; simpl; lia).
      replace (done ++ mkField true (ftype fb) (fvalue fb) :: todo)
        with ((done ++ [mkField true (ftype fb) (fvalue fb)]) ++ todo)
        by (now rewrite <- app_assoc).
      replace (bdone ++ fb :: btodo) with ((bdone ++ [fb]) ++ btodo)
        by (now rewrite <- app_assoc).
      rewrite IH by (rewrite !length_app; simpl; lia).
      now rewrite <- app_assoc.
    + replace (S (length done)) with (length (done ++ [fa]))
        by (rewrite length_app; simpl; lia).
      replace (done ++ fa :: todo) with ((done ++ [fa]) ++ todo)
        by (now rewrite <- app_assoc).
      replace (bdone ++ fb :: btodo) with ((bdone ++ [fb]) ++ btodo)
        by (now rewrite <- app_assoc).
      rewrite IH by (rewrite !length_app; simpl; lia).
      now rewrite <- app_assoc.
Qed.

Lemma setDefaults_same_type (a b : Struct T V) :
  same_struct_type a b ->
  setDefaults assignable a b = Some (map copied (combine a b)).
Proof.
  intros H. unfold setDefaults, NumField.
  exact (setDefaults_loop_same_type a b H [] [] eq_refl).
Qed.

Lemma copied_fields (a b : Struct T V) :
  same_struct_type a b ->
  Forall2 (fun fa fa' : Field T V =>
             exported fa' = exported fa /\ ftype fa' = ftype fa
             /\ (exported fa = false -> fa' = fa))
    a (map copied (combine a b))
  /\ Forall2 (fun fb fa' : Field T V =>
                exported fb = true -> fvalue fa' = fvalue fb)
       b (map copied (combine a b)).
Proof.
  induction 1 as [|fa fb a b [Hexp Hty] Hrest [IH1 IH2]]; simpl.
  - split; constructor.
  - split; constructor; try assumption.
    + destruct (exported fa) eqn:E; simpl; rewrite ?E; auto.
      repeat split. discriminate.
    + intros Eb. rewrite <- Hexp in Eb. now rewrite Eb.
Qed.

(** X19: on two structs of the same struct type [setDefaults] returns
    normally; afterwards every exported field of [a] holds the value of
    the same field of [b], and every unexported field of [a] is as it was
    (the private mutex of a transport is not copied).  Types and
    visibility of the fields do not change. *)
Theorem setDefaults_copies_public_fields (a b : Struct T V) :
  same_struct_type a b ->
  exists a',
    setDefaults assignable a b = Some a'
    /\ Forall2 (fun fa fa' : Field T V =>
                  exported fa' = exported fa /\ ftype fa' = ftype fa
                  /\ (exported fa = false -> fa' = fa))
         a a'
    /\ Forall2 (fun fb fa' : Field T V =>
                  exported fb = true -> fvalue fa' = fvalue fb)
         b a'.
Proof.
  intros H. exists (map copied (combine a b)).
  split; [now apply setDefaults_same_type | now apply copied_fields].
Qed.

Context {Request Error World : Type}.
Variable log_Printf : string -> list (Arg Request Error) -> World -> World.

(** X20: when [http.DefaultTransport] is an [http.Transport] (a struct of
    the type of the zero transport), [NewDefault] returns normally: the
    options of the result are those [New] gives, and the transport it
    wraps has the exported fields of [http.DefaultTransport] and the
    unexported fields of a fresh zero [http.Transport]. *)
Theorem NewDefault_wraps_default_fields
    (zero d : Struct T V)
    (given : option (GivenOptions.t Request Error World)) :
  same_struct_type zero d ->
  exists tr,
    NewDefault assignable log_Printf zero (Some d) given
    = Some (New log_Printf given tr)
    /\ Forall2 (fun fz ft : Field T V =>
                  exported ft = exported fz /\ ftype ft = ftype fz
                  /\ (exported fz = false -> ft = fz))
         zero tr
    /\ Forall2 (fun fd ft : Field T V =>
                  exported fd = true -> fvalue ft = fvalue fd)
         d tr.
Proof.
  intros H. exists (map copied (combine zero d)).
  split; [|now apply copied_fields].
  unfold NewDefault. now rewrite setDefaults_same_type.
Qed.

End MoreReflect.

Lemma setDefaults_copies_public_fields_witness :
  let a := [ Reflect.mkField true 0%nat 0%nat;
             Reflect.mkField false 1%nat 5%nat;
             Reflect.mkField true 2%nat 0%nat ] in
  let b := [ Reflect.mkField true 0%nat 7%nat;
             Reflect.mkField false 1%nat 9%nat;
             Reflect.mkField true 2%nat 8%nat ] in
  exists a',
    Reflect.setDefaults Nat.eqb a b = Some a'
    /\ Forall2 (fun fa fa' : Reflect.Field nat nat =>
                  Reflect.exported fa' = Reflect.exported fa
                  /\ Reflect.ftype fa' = Reflect.ftype fa
                  /\ (Reflect.exported fa = false -> fa' = fa))
         a a'
    /\ Forall2 (fun fb fa' : Reflect.Field nat nat =>
                  Reflect.exported fb = true ->
                  Reflect.fvalue fa' = Reflect.fvalue fb)
         b a'.
Proof.
  intros a b.
  apply (setDefaults_copies_public_fields Nat.eqb Nat.eqb_refl a b).
  repeat constructor.
Defined.

Lemma NewDefault_wraps_default_fields_witness :
  let zero := [ Reflect.mkField true 0%nat 0%nat;
                Reflect.mkField false 1%nat 0%nat ] in
  let d := [ Reflect.mkField true 0%nat 7%nat;
             Reflect.mkField false 1%nat 9%nat ] in
  exists tr,
    NewDefault Nat.eqb Demo.sink zero (Some d) None
    = Some (New Demo.sink None tr)
    /\ Forall2 (fun fz ft : Reflect.Field nat nat =>
                  Reflect.exported ft = Reflect.exported fz
                  /\ Reflect.ftype ft = Reflect.ftype fz
                  /\ (Reflect.exported fz = false -> ft = fz))
         zero tr
    /\ Forall2 (fun fd ft : Reflect.Field nat nat =>
                  Reflect.exported fd = true ->
                  Reflect.fvalue ft = Reflect.fvalue fd)
         d tr.
Proof.
  intros zero d.
  apply (NewDefault_wraps_default_fields Nat.eqb Nat.eqb_refl Demo.sink
           zero d None).
  repeat constructor.
Defined.

(** [TestSetDefaults], on a struct of three fields. *)
Example TestSetDefaults :
  Reflect.setDefaults Nat.eqb
    [ Reflect.mkField true 0%nat 0%nat;
      Reflect.mkField false 1%nat 5%nat;
      Reflect.mkField true 2%nat 0%nat ]
    [ Reflect.mkField true 0%nat 7%nat;
      Reflect.mkField false 1%nat 9%nat;
      Reflect.mkField true 2%nat 8%nat ]
  = Some [ Reflect.mkField true 0%nat 7%nat;
           Reflect.mkField false 1%nat 5%nat;
           Reflect.mkField true 2%nat 8%nat ].
Proof. reflexivity. Qed.
